(** * common-good: RFC 6838 media types

    A shallow embedding of [ascii.hpp], of [media_type.hpp] (namespace
    [common_good::rfc6838]) and of the second encoding of the same model, the
    class [common_good::media_type] with nested component classes.

    A [std::string] / [std::string_view] is a list of characters, an iterator
    into a view is its offset from [begin], a constructor that throws returns
    a [result] carrying the [what()] text of the [parsing_error]. *)

From Stdlib Require Import Ascii String List Bool Arith ZArith Lia.
Import ListNotations.

Local Open Scope char_scope.
Local Open Scope list_scope.
Local Open Scope nat_scope.

(** ** Strings and string views *)

Abbreviation str := (list ascii).

(** A string literal of the source. *)
Definition lit (s : string) : str := list_ascii_of_string s.

Definition str_eqb (a b : str) : bool :=
  if list_eq_dec ascii_dec a b then true else false.

(** [empty()], [front()], [back()]; the last two are only called on
    non-empty strings in the source. *)
Definition empty (s : str) : bool :=
  match s with [] => true | _ => false end.

Definition front (s : str) : ascii :=
  match s with c :: _ => c | [] => zero end.

Definition back (s : str) : ascii := last s zero.

(** [std::ranges::find(s, c)], as the offset of the iterator it returns:
    the first position holding [c], or [length s] (the end iterator). *)
Fixpoint find (c : ascii) (s : str) : nat :=
  match s with
  | [] => 0
  | x :: r => if Ascii.eqb x c then 0 else S (find c r)
  end.

(** [std::ranges::find_last(s, c).begin()]: the view is bidirectional, so the
    search runs from the end; the result is the offset of the last position
    holding [c], or [length s]. *)
Definition find_last (c : ascii) (s : str) : nat :=
  let k := find c (rev s) in
  if k =? length s then length s else length s - 1 - k.

(** [std::ranges::contains]. *)
Definition contains (l : list ascii) (c : ascii) : bool :=
  existsb (Ascii.eqb c) l.

(** ** Outcome of a constructor that may throw [parsing_error] *)

Inductive result (A : Type) : Type :=
| Ok (a : A)
| Throw (what : string).

Arguments Ok {A} a.
Arguments Throw {A} what.

Definition bind {A B : Type} (r : result A) (k : A -> result B) : result B :=
  match r with
  | Ok a => k a
  | Throw w => Throw w
  end.

Notation "x <- e ;; k" := (bind e (fun x => k))
  (at level 61, e at next level, right associativity).
Notation "' p <- e ;; k" := (bind e (fun x => match x with p => k end))
  (at level 61, p pattern, e at next level, right associativity).

Definition succeeds {A : Type} (r : result A) : bool :=
  match r with Ok _ => true | Throw _ => false end.

Definition to_option {A : Type} (r : result A) : option A :=
  match r with Ok a => Some a | Throw _ => None end.

Definition map_result {A B : Type} (f : A -> B) (r : result A) : result B :=
  match r with Ok a => Ok (f a) | Throw w => Throw w end.

(** ** ascii.hpp *)

Module ascii.

(** The code of a character.  Every bound the predicates below compare
    against lies in 0..127, so a character above 127 fails each range test
    whether [char] is signed or not. *)
Definition code (c : Ascii.ascii) : nat := nat_of_ascii c.

(** The value of the same character where [char] is signed. *)
Definition signed_code (c : Ascii.ascii) : Z :=
  let n := Z.of_nat (nat_of_ascii c) in
  if Z.ltb n 128 then n else Z.sub n 256.

Definition is_digit (character : Ascii.ascii) : bool :=
  (code "0" <=? code character) && (code character <=? code "9").

Definition is_alphabetic_lowercase (character : Ascii.ascii) : bool :=
  (code "a" <=? code character) && (code character <=? code "z").

Definition is_alphabetic_uppercase (character : Ascii.ascii) : bool :=
  (code "A" <=? code character) && (code character <=? code "Z").

Definition to_lowercase (character : Ascii.ascii) : Ascii.ascii :=
  if is_alphabetic_uppercase character
  then ascii_of_nat (code character + 32)
  else character.

Definition to_uppercase (character : Ascii.ascii) : Ascii.ascii :=
  if is_alphabetic_lowercase character
  then ascii_of_nat (code character - 32)
  else character.

Definition is_alphabetic (character : Ascii.ascii) : bool :=
  is_alphabetic_uppercase character || is_alphabetic_lowercase character.

Definition is_alphanumeric (character : Ascii.ascii) : bool :=
  is_alphabetic character || is_digit character.

Definition is_alphanumeric_uppercase (character : Ascii.ascii) : bool :=
  is_alphabetic_uppercase character || is_digit character.

Definition is_alphanumeric_lowercase (character : Ascii.ascii) : bool :=
  is_alphabetic_lowercase character || is_digit character.

Definition is_control (character : Ascii.ascii) : bool :=
  (code character =? 0)
  || ((0 <? code character) && (code character <=? 31))
  || (code character =? 127).

Definition is_printable (character : Ascii.ascii) : bool :=
  (32 <=? code character) && (code character <=? 126).

Definition is_graphical (character : Ascii.ascii) : bool :=
  is_printable character && negb (Ascii.eqb character " ").

Definition is_blank (character : Ascii.ascii) : bool :=
  Ascii.eqb character " " || Ascii.eqb character "009".

Definition is_hexadecimal (character : Ascii.ascii) : bool :=
  is_digit character
  || ((code "A" <=? code character) && (code character <=? code "F"))
  || ((code "a" <=? code character) && (code character <=? code "f")).

Definition is_space (character : Ascii.ascii) : bool :=
  ((9 <=? code character) && (code character <=? 13))
  || Ascii.eqb character " ".

Definition is_punctuation (character : Ascii.ascii) : bool :=
  ((33 <=? code character) && (code character <=? 47))
  || ((58 <=? code character) && (code character <=? 64))
  || ((91 <=? code character) && (code character <=? 96))
  || ((123 <=? code character) && (code character <=? 126)).

End ascii.

(** [std::ranges::transform(value, value.begin(), ascii::to_lowercase)]. *)
Definition lowercase (value : str) : str := map ascii.to_lowercase value.

(** The double quote character, written by its code. *)
Definition dquote : Ascii.ascii := "034".

(** ** media_type.hpp: namespace common_good::rfc6838 *)

Module rfc6838.

Definition restricted_list : list Ascii.ascii :=
  ["!"; "#"; "$"; "&"; "-"; "^"; "_"; "."; "+"].

Definition modified_restricted_list : list Ascii.ascii :=
  ["!"; "#"; "$"; "&"; "-"; "^"; "_"].

Definition is_restricted_name (string : str) : bool :=
  forallb (fun character =>
             ascii.is_alphanumeric character || contains restricted_list character)
          string.

Definition is_modified_restricted_name (string : str) : bool :=
  forallb (fun character =>
             ascii.is_alphanumeric character
             || contains modified_restricted_list character)
          string.

(** *** class type *)
Module type.
Record t : Type := mk { value : str }.

Definition ctor (input : str) : result t :=
  let value := input in
  if empty value || (127 <? length value) then
    Throw "media type: top-level type: lenght required to be [1..127] characters"
  else if negb (ascii.is_alphanumeric (front value)) then
    Throw "media type: top-level type: first character required to be alphanumeric"
  else if negb (is_restricted_name value) then
    Throw "media type: top-level type: containing non-valid characters"
  else Ok (mk (lowercase value)).

Definition eqb (a b : t) : bool := str_eqb (value a) (value b).
Definition string (x : t) : str := value x.
End type.

(** *** class tree *)
Module tree.
Record t : Type := mk { value : str }.

Definition ctor (input : str) : result t :=
  let value := input in
  if empty value then Ok (mk value)
  else if (length value <? 2) || (127 <? length value) then
    Throw "media type: tree: lenght required to be [2..127] characters"
  else if negb (ascii.is_alphanumeric (front value)) then
    Throw "media type: tree: first character required to be alphanumeric"
  else if negb (Ascii.eqb (back value) ".") then
    Throw "media type: tree: last character required to be '.'"
  else if negb (is_modified_restricted_name (removelast value)) then
    Throw "media type: tree: containing non-valid characters"
  else Ok (mk (lowercase value)).

Definition eqb (a b : t) : bool := str_eqb (value a) (value b).
Definition string (x : t) : str := value x.
Definition standard (x : t) : bool := empty (value x).
End tree.

(** *** class subtype *)
Module subtype.
Record t : Type := mk { value : str }.

Definition ctor (input : str) : result t :=
  let value := input in
  if empty value || (127 <? length value) then
    Throw "media type: subtype: lenght required to be [1..127] characters"
  else if negb (ascii.is_alphanumeric (front value)) then
    Throw "media type: subtype: first character required to be alphanumeric"
  else if negb (is_restricted_name value) then
    Throw "media type: subtype: containing non-valid characters"
  else Ok (mk (lowercase value)).

Definition eqb (a b : t) : bool := str_eqb (value a) (value b).
Definition string (x : t) : str := value x.
End subtype.

(** *** class suffix *)
Module suffix.
Record t : Type := mk { value : str }.

Definition ctor (input : str) : result t :=
  let value := input in
  if (length value <? 2) || (127 <? length value) then
    Throw "media type: suffix: lenght required to be [2..127] characters"
  else if negb (Ascii.eqb (front value) "+") then
    Throw "media type: suffix: first character required to be '+'"
  else
    let substring := tl value in
    if negb (ascii.is_alphanumeric (front substring)) then
      Throw "media type: suffix: second character required to be alphanumeric"
    else if negb (is_modified_restricted_name substring) then
      Throw "media type: suffix: containing non-valid characters"
    else Ok (mk (lowercase value)).

Definition eqb (a b : t) : bool := str_eqb (value a) (value b).
Definition string (x : t) : str := value x.
End suffix.

(** *** class parameter_name *)
Module parameter_name.
Record t : Type := mk { value : str }.

Definition ctor (input : str) : result t :=
  let value := input in
  if empty value || (127 <? length value) then
    Throw "media type: parameter name: lenght required to be [1..127] characters"
  else if negb (ascii.is_alphanumeric (front value)) then
    Throw "media type: parameter name: first character required to be alphanumeric"
  else if negb (is_restricted_name value) then
    Throw "media type: parameter name: containing non-valid characters"
  else Ok (mk (lowercase value)).

Definition string (x : t) : str := value x.
End parameter_name.

(** *** class parameter_value *)
Module parameter_value.
Record t : Type := mk { backend : str }.

(** [std::string_view {backend.begin() + 1, backend.end() - 1}]. *)
Definition inner_string (x : t) : str := removelast (tl (backend x)).

Definition ctor (input : str) : result t :=
  let this := mk input in
  if empty (backend this) || (127 <? length (backend this)) then
    Throw "media type: parameter value: lenght required to be [1..127] characters"
  else if Ascii.eqb (front (backend this)) dquote then
    if (length (backend this) =? 1) || negb (Ascii.eqb (back (backend this)) dquote) then
      Throw ("media type: parameter value: quoted string missing trailing '"
               ++ String dquote "'")
    else if length (backend this) =? 2 then
      Throw "media type: parameter value: quoted string empty"
    else if contains (inner_string this) dquote then
      Throw ("media type: parameter value: quoted string containing '"
               ++ String dquote "'")
    else Ok this
  else if negb (is_restricted_name (backend this)) then
    Throw "media type: parameter value: non-quoted string containing non-valid characters"
  else Ok this.

Definition string (x : t) : str := backend x.

Definition value_view (x : t) : str :=
  if Ascii.eqb (front (backend x)) dquote then inner_string x else backend x.

Definition value (x : t) : str :=
  if Ascii.eqb (front (backend x)) dquote then inner_string x else backend x.

(** [operator==]. *)
Definition eqb (first second : t) : bool :=
  str_eqb (value_view first) (value_view second).
End parameter_value.

(** *** class media_type *)
Module media_type.
Record t : Type := mk {
  type : type.t;
  tree : tree.t;
  subtype : subtype.t;
  suffix : option suffix.t
}.

(** The three lambdas of [parser].  Each one reads and narrows the view
    [input] it captures by reference: it returns the view it yields
    together with [input] as it leaves it. *)
Definition parser_type (input : str) : result (str * str) :=
  let begin := 0 in
  let match_ := find "/" input in
  if match_ =? length input then
    Throw "media type: parsing: missing delimiter '/' after type"
  else Ok (firstn match_ input, skipn (S match_) input).

Definition parser_tree (input : str) : result (str * str) :=
  let begin := 0 in
  let match_ := find "." input in
  if match_ =? begin then
    Throw "media type: parsing: missing tree between '/' and '.'"
  else if match_ =? length input then Ok ([], input)
  else Ok (firstn (S match_) input, skipn (S match_) input).

Definition parser_subtype (input : str) : str * str :=
  let match_ := find_last "+" input in
  (firstn match_ input, skipn match_ input).

(** [input.empty() ? std::nullopt : std::optional<suffix> {std::string {input}}]. *)
Definition parser_suffix (input : str) : result (option suffix.t) :=
  if empty input then Ok None
  else s <- suffix.ctor input ;; Ok (Some s).

Definition parser (input : str) : result t :=
  let input := firstn (find ";" input) input in
  '(type_, input) <- parser_type input ;;
  '(tree_, input) <- parser_tree input ;;
  let '(subtype_, input) := parser_subtype input in
  suffix_ <- parser_suffix input ;;
  a <- type.ctor type_ ;;
  b <- tree.ctor tree_ ;;
  c <- subtype.ctor subtype_ ;;
  Ok (mk a b c suffix_).

(** [media_type(std::string_view)]. *)
Definition ctor (input : str) : result t := parser input.

(** [operator==], member by member. *)
Definition eqb (a b : t) : bool :=
  type.eqb (type a) (type b)
  && tree.eqb (tree a) (tree b)
  && subtype.eqb (subtype a) (subtype b)
  && match suffix a, suffix b with
     | Some x, Some y => suffix.eqb x y
     | None, None => true
     | _, _ => false
     end.

(** [operator std::string] and [string()]. *)
Definition string (this : t) : str :=
  type.string (type this) ++ lit "/" ++ tree.string (tree this)
    ++ subtype.string (subtype this)
    ++ match suffix this with Some s => suffix.string s | None => [] end.

(** [without_suffix() const&]. *)
Definition without_suffix (this : t) : t :=
  mk (type this) (tree this) (subtype this) None.

(** [without_suffix() &&]: [suffix.reset()], then the object is moved out. *)
Definition reset_suffix (this : t) : t :=
  mk (type this) (tree this) (subtype this) None.

Definition without_suffix_rvalue (this : t) : t :=
  let this := reset_suffix this in
  this.
End media_type.

End rfc6838.

(** ** src/unnamed/part_000: class common_good::media_type with nested classes *)

Module part_000.

Definition allowed_characters (string : str) (list : list Ascii.ascii) : bool :=
  forallb (fun character =>
             ascii.is_alphanumeric character || contains list character)
          string.

(** *** class media_top_type *)
Module media_top_type.
Record t : Type := mk { value : str }.

Definition ctor (input : str) : result t :=
  let value := input in
  if empty value || (127 <? length value) then
    Throw "media type: top-level type: lenght required to be [1..127] characters"
  else if negb (ascii.is_alphanumeric (front value)) then
    Throw "media type: top-level type: first character required to be alphanumeric"
  else if negb (allowed_characters value
                  ["!"; "#"; "$"; "&"; "-"; "^"; "_"; "."; "+"]) then
    Throw "media type: top-level type: containing non-valid characters"
  else Ok (mk (lowercase value)).

Definition eqb (a b : t) : bool := str_eqb (value a) (value b).
Definition string (x : t) : str := value x.
End media_top_type.

(** *** class media_tree *)
Module media_tree.
Record t : Type := mk { value : str }.

Definition ctor (input : str) : result t :=
  let value := input in
  if empty value then Ok (mk value)
  else if (length value <? 2) || (127 <? length value) then
    Throw "media type: tree: lenght required to be [2..127] characters"
  else if negb (ascii.is_alphanumeric (front value)) then
    Throw "media type: tree: first character required to be alphanumeric"
  else if negb (Ascii.eqb (back value) ".") then
    Throw "media type: tree: last character required to be '.'"
  else if negb (allowed_characters (removelast value)
                  ["!"; "#"; "$"; "&"; "-"; "^"; "_"]) then
    Throw "media type: tree: containing non-valid characters"
  else Ok (mk (lowercase value)).

Definition eqb (a b : t) : bool := str_eqb (value a) (value b).
Definition string (x : t) : str := value x.
Definition standard (x : t) : bool := empty (value x).
End media_tree.

(** *** class media_subtype *)
Module media_subtype.
Record t : Type := mk { value : str }.

Definition ctor (input : str) : result t :=
  let value := input in
  if empty value || (127 <? length value) then
    Throw "media type: subtype: lenght required to be [1..127] characters"
  else if negb (ascii.is_alphanumeric (front value)) then
    Throw "media type: subtype: first character required to be alphanumeric"
  else if negb (allowed_characters value
                  ["!"; "#"; "$"; "&"; "-"; "^"; "_"; "."; "+"]) then
    Throw "media type: subtype: containing non-valid characters"
  else Ok (mk (lowercase value)).

Definition eqb (a b : t) : bool := str_eqb (value a) (value b).
Definition string (x : t) : str := value x.
End media_subtype.

(** *** class media_suffix *)
Module media_suffix.
Record t : Type := mk { value : str }.

Definition ctor (input : str) : result t :=
  let value := input in
  if (length value <? 2) || (127 <? length value) then
    Throw "media type: suffix: lenght required to be [2..127] characters"
  else if negb (Ascii.eqb (front value) "+") then
    Throw "media type: suffix: first character required to be '+'"
  else if negb (ascii.is_alphanumeric (nth 1 value zero)) then
    Throw "media type: suffix: second character required to be alphanumeric"
  else if negb (allowed_characters (tl value)
                  ["!"; "#"; "$"; "&"; "-"; "^"; "_"]) then
    Throw "media type: suffix: containing non-valid characters"
  else Ok (mk (lowercase value)).

Definition eqb (a b : t) : bool := str_eqb (value a) (value b).
Definition string (x : t) : str := value x.
End media_suffix.

Record t : Type := mk {
  type : media_top_type.t;
  tree : media_tree.t;
  subtype : media_subtype.t;
  suffix : option media_suffix.t
}.

(** The lambdas of [parser]: here each one also runs the component's
    constructor on the view it cuts off, and [input.remove_prefix] narrows
    the captured view. *)
Definition parser_type (input : str) : result (media_top_type.t * str) :=
  let match_ := firstn (find "/" input) input in
  if length match_ =? length input then
    Throw "media type: parsing: missing delimiter '/' after type"
  else
    let input := skipn (length match_ + 1) input in
    r <- media_top_type.ctor match_ ;; Ok (r, input).

Definition parser_tree (input : str) : result (media_tree.t * str) :=
  let match_ := find "." input in
  if match_ =? 0 then
    Throw "media type: parsing: missing tree between '/' and '.'"
  else if match_ =? length input then
    r <- media_tree.ctor [] ;; Ok (r, input)
  else
    let result := firstn (S match_) input in
    let input := skipn (length result) input in
    r <- media_tree.ctor result ;; Ok (r, input).

Definition parser_subtype (input : str) : result (media_subtype.t * str) :=
  let match_ := firstn (find_last "+" input) input in
  let input := skipn (length match_) input in
  r <- media_subtype.ctor match_ ;; Ok (r, input).

Definition parser_suffix (input : str) : result (option media_suffix.t) :=
  if empty input then Ok None
  else s <- media_suffix.ctor input ;; Ok (Some s).

Definition parser (input : str) : result t :=
  let input := firstn (find ";" input) input in
  '(type_, input) <- parser_type input ;;
  '(tree_, input) <- parser_tree input ;;
  '(subtype_, input) <- parser_subtype input ;;
  suffix_ <- parser_suffix input ;;
  Ok (mk type_ tree_ subtype_ suffix_).

Definition ctor (input : str) : result t := parser input.

Definition eqb (a b : t) : bool :=
  media_top_type.eqb (type a) (type b)
  && media_tree.eqb (tree a) (tree b)
  && media_subtype.eqb (subtype a) (subtype b)
  && match suffix a, suffix b with
     | Some x, Some y => media_suffix.eqb x y
     | None, None => true
     | _, _ => false
     end.

(** [std::format("{}/{}{}{}", type, tree, subtype, suffix)] with the
    formatters of the file, each of which prints [string()], and the empty
    string for an absent suffix. *)
Definition string (this : t) : str :=
  media_top_type.string (type this) ++ lit "/"
    ++ media_tree.string (tree this)
    ++ media_subtype.string (subtype this)
    ++ match suffix this with Some s => media_suffix.string s | None => [] end.

End part_000.

(** * Vocabulary of the properties *)

(** ** Messages of the parser *)

Definition missing_delimiter : string :=
  "media type: parsing: missing delimiter '/' after type".

Definition missing_tree : string :=
  "media type: parsing: missing tree between '/' and '.'".

Definition suffix_length : string :=
  "media type: suffix: lenght required to be [2..127] characters".






(** The part of the input the parser looks at: what precedes the first [';']. *)
Definition before_parameters (input : str) : str :=
  firstn (find ";" input) input.

(** ** Observations on a media type *)

(** The strings a media type is made of: type, tree, subtype, optional suffix. *)
Definition components (m : rfc6838.media_type.t) : str * str * str * option str :=
  (rfc6838.type.string (rfc6838.media_type.type m),
   rfc6838.tree.string (rfc6838.media_type.tree m),
   rfc6838.subtype.string (rfc6838.media_type.subtype m),
   option_map rfc6838.suffix.string (rfc6838.media_type.suffix m)).

Definition components_000 (m : part_000.t) : str * str * str * option str :=
  (part_000.media_top_type.string (part_000.type m),
   part_000.media_tree.string (part_000.tree m),
   part_000.media_subtype.string (part_000.subtype m),
   option_map part_000.media_suffix.string (part_000.suffix m)).

(** The value of the nested encoding that holds the same strings. *)
Definition nested (m : rfc6838.media_type.t) : part_000.t :=
  part_000.mk
    (part_000.media_top_type.mk (rfc6838.type.value (rfc6838.media_type.type m)))
    (part_000.media_tree.mk (rfc6838.tree.value (rfc6838.media_type.tree m)))
    (part_000.media_subtype.mk (rfc6838.subtype.value (rfc6838.media_type.subtype m)))
    (option_map (fun x => part_000.media_suffix.mk (rfc6838.suffix.value x))
       (rfc6838.media_type.suffix m)).



Definition suffix_text (o : option rfc6838.suffix.t) : str :=
  match o with Some x => rfc6838.suffix.string x | None => [] end.

(** ** Case variants *)

(** The normal form of the specification, written from its words and not
    from [ascii::to_lowercase]: each of the 26 ASCII uppercase letters is
    replaced by its lowercase counterpart, any other character is kept. *)
Definition spec_lowercase_letter (c : ascii) : ascii :=
  match c with
  | "A" => "a" | "B" => "b" | "C" => "c" | "D" => "d" | "E" => "e"
  | "F" => "f" | "G" => "g" | "H" => "h" | "I" => "i" | "J" => "j"
  | "K" => "k" | "L" => "l" | "M" => "m" | "N" => "n" | "O" => "o"
  | "P" => "p" | "Q" => "q" | "R" => "r" | "S" => "s" | "T" => "t"
  | "U" => "u" | "V" => "v" | "W" => "w" | "X" => "x" | "Y" => "y"
  | "Z" => "z"
  | _ => c
  end.

Definition spec_normalize (s : str) : str := map spec_lowercase_letter s.

(** Two characters are case variants of each other when one is the other,
    its lowercase or its uppercase form. *)
Definition char_case_variant (a b : ascii) : Prop :=
  b = a \/ b = ascii.to_lowercase a \/ b = ascii.to_uppercase a.

Definition case_variant (s s' : str) : Prop := Forall2 char_case_variant s s'.

Definition lowercase2 (p : str * str) : str * str :=
  (lowercase (fst p), lowercase (snd p)).

(** ** Rules of the components *)

(** The rules of each component other than the one on its length. *)
Definition name_rules (s : str) : bool :=
  ascii.is_alphanumeric (front s) && rfc6838.is_restricted_name s.

Definition tree_rules (s : str) : bool :=
  ascii.is_alphanumeric (front s) && Ascii.eqb (back s) "."
  && rfc6838.is_modified_restricted_name (removelast s).

Definition suffix_rules (s : str) : bool :=
  Ascii.eqb (front s) "+" && ascii.is_alphanumeric (front (tl s))
  && rfc6838.is_modified_restricted_name (tl s).

Definition parameter_value_rules (s : str) : bool :=
  if Ascii.eqb (front s) dquote
  then Ascii.eqb (back s) dquote && negb (contains (removelast (tl s)) dquote)
  else rfc6838.is_restricted_name s.

(** Strings of 127 and of 128 characters for the boundary. *)
Definition a127 : str := repeat "a" 127.
Definition tree127 : str := repeat "a" 126 ++ ["."].
Definition suffix127 : str := "+" :: repeat "a" 126.
Definition quoted127 : str := dquote :: repeat "a" 125 ++ [dquote].
Definition a128 : str := repeat "a" 128.

(** ** Values of the class and values the parser yields *)

(** A character a restricted name may hold. *)
Definition restricted_char (c : ascii) : bool :=
  ascii.is_alphanumeric c || contains rfc6838.restricted_list c.

(** Every member of [m] came out of the constructor of its class, as every
    object of these classes does. *)
Definition constructed (m : rfc6838.media_type.t) : Prop :=
  (exists a, rfc6838.type.ctor a = Ok (rfc6838.media_type.type m))
  /\ (exists b, rfc6838.tree.ctor b = Ok (rfc6838.media_type.tree m))
  /\ (exists c, rfc6838.subtype.ctor c = Ok (rfc6838.media_type.subtype m))
  /\ match rfc6838.media_type.suffix m with
     | Some x => exists d, rfc6838.suffix.ctor d = Ok x
     | None => True
     end.

(** The shape of the values the parser yields: with the standard tree the
    subtype holds no ['.'], and with no suffix it holds no ['+']. *)
Definition canonical (m : rfc6838.media_type.t) : Prop :=
  (rfc6838.tree.standard (rfc6838.media_type.tree m) = true ->
   ~ In "." (rfc6838.subtype.string (rfc6838.media_type.subtype m)))
  /\ (rfc6838.media_type.suffix m = None ->
      ~ In "+" (rfc6838.subtype.string (rfc6838.media_type.subtype m))).

(** A stored name: 1 to 127 characters of a restricted name, the first one
    alphanumeric, none of them an uppercase letter. *)
Definition normal_name (x : str) : Prop :=
  1 <= length x <= 127
  /\ ascii.is_alphanumeric (front x) = true
  /\ rfc6838.is_restricted_name x = true
  /\ Forall (fun c => ascii.is_alphabetic_uppercase c = false) x.

(** The messages with which parsing a whole media type can fail. *)
Definition parser_messages : list string :=
  [ "media type: parsing: missing delimiter '/' after type";
    "media type: parsing: missing tree between '/' and '.'";
    "media type: top-level type: lenght required to be [1..127] characters";
    "media type: top-level type: first character required to be alphanumeric";
    "media type: top-level type: containing non-valid characters";
    "media type: tree: lenght required to be [2..127] characters";
    "media type: tree: first character required to be alphanumeric";
    "media type: tree: containing non-valid characters";
    "media type: subtype: lenght required to be [1..127] characters";
    "media type: subtype: first character required to be alphanumeric";
    "media type: subtype: containing non-valid characters";
    "media type: suffix: lenght required to be [2..127] characters";
    "media type: suffix: second character required to be alphanumeric";
    "media type: suffix: containing non-valid characters" ]%string.

(** ** Tactics *)

(** Case analysis over the 256 characters. *)
Ltac each_char c := destruct c as [[] [] [] [] [] [] [] []].

(** Find a message in a list of messages. *)
Ltac in_messages :=
  cbv [In parser_messages]; repeat (first [left; reflexivity | right]).


Ltac case_ifs H :=
  repeat match type of H with
         | context [if ?b then _ else _] =>
             let E := fresh "E" in destruct b eqn:E; try discriminate H
         end.

(** * Properties *)

(** ** Searching in a view *)

Lemma firstn_app_exact (a b : str) : firstn (length a) (a ++ b) = a.
Proof.
  rewrite firstn_app, firstn_all, Nat.sub_diag. simpl. apply app_nil_r.
Qed.

Lemma skipn_app_exact (a b : str) : skipn (length a) (a ++ b) = b.
Proof.
  rewrite skipn_app, skipn_all, Nat.sub_diag. reflexivity.
Qed.

Section Find.
Variable c : ascii.

Lemma find_le (s : str) : find c s <= length s.
Proof.
  induction s as [|x r IH]; simpl; [lia|].
  destruct (Ascii.eqb x c); simpl; lia.
Qed.

Lemma find_absent (s : str) : ~ In c s <-> find c s = length s.
Proof.
  induction s as [|x r IH]; simpl.
  - tauto.
  - destruct (Ascii.eqb_spec x c) as [E|E].
    + split; [intros H; exfalso; apply H; now left | discriminate].
    + split.
      * intros H. f_equal. apply IH. tauto.
      * intros H [F|F]; [easy|]. injection H as H. apply IH in H. easy.
Qed.

Lemma find_present (s : str) : In c s <-> find c s < length s.
Proof.
  pose proof (find_le s) as L. pose proof (find_absent s) as [A B].
  destruct (in_dec ascii_dec c s) as [I|I]; split; intros H; try easy.
  - destruct (Nat.eq_dec (find c s) (length s)) as [E|E]; [|lia].
    now apply B in E.
  - apply A in I. lia.
Qed.

(** The view splits at the position [find] returns. *)
Lemma find_split (s : str) :
  find c s < length s ->
  s = firstn (find c s) s ++ c :: skipn (S (find c s)) s.
Proof.
  induction s as [|x r IH]; simpl; [lia|].
  destruct (Ascii.eqb_spec x c) as [E|E]; simpl.
  - now subst.
  - intros H. f_equal. apply IH. lia.
Qed.

Lemma find_prefix_absent (s : str) : ~ In c (firstn (find c s) s).
Proof.
  induction s as [|x r IH]; simpl; [tauto|].
  destruct (Ascii.eqb_spec x c) as [E|E]; simpl; tauto.
Qed.

Lemma find_app (a b : str) : ~ In c a -> find c (a ++ c :: b) = length a.
Proof.
  induction a as [|x r IH]; simpl; intros H.
  - now rewrite Ascii.eqb_refl.
  - destruct (Ascii.eqb_spec x c) as [E|E]; [tauto|]. f_equal. tauto.
Qed.

(** A search that stops inside [a] is not affected by what follows. *)
Lemma find_app_l (a b : str) : In c a -> find c (a ++ b) = find c a.
Proof.
  induction a as [|x r IH]; simpl; [tauto|].
  destruct (Ascii.eqb_spec x c) as [E|E]; [easy|].
  intros [H|H]; [easy|]. f_equal. tauto.
Qed.

Lemma find_app_r (a b : str) :
  ~ In c a -> find c (a ++ b) = length a + find c b.
Proof.
  induction a as [|x r IH]; simpl; intros H; [easy|].
  destruct (Ascii.eqb_spec x c) as [E|E]; [tauto|]. f_equal. tauto.
Qed.

Lemma find_last_absent (s : str) : ~ In c s -> find_last c s = length s.
Proof.
  intros H. unfold find_last.
  assert (E : find c (rev s) = length (rev s)).
  { apply find_absent. now rewrite <- in_rev. }
  rewrite length_rev in E. rewrite E, Nat.eqb_refl. reflexivity.
Qed.

(** [find_last] returns the start of the last occurrence. *)
Lemma find_last_app (a b : str) :
  ~ In c b -> find_last c (a ++ c :: b) = length a.
Proof.
  intros H. unfold find_last.
  rewrite rev_app_distr. simpl rev. rewrite <- app_assoc. simpl.
  rewrite find_app by now rewrite <- in_rev.
  rewrite length_rev, length_app. simpl.
  destruct (Nat.eqb_spec (length b) (length a + S (length b))); lia.
Qed.

Lemma last_occurrence (s : str) :
  In c s -> exists a b, s = a ++ c :: b /\ ~ In c b.
Proof.
  induction s as [|x r IH]; simpl; [tauto|].
  intros H. destruct (in_dec ascii_dec c r) as [I|I].
  - destruct (IH I) as (a & b & -> & Hb). now exists (x :: a), b.
  - destruct H as [->|H]; [|tauto]. now exists [], r.
Qed.

Lemma find_last_le (s : str) : find_last c s <= length s.
Proof.
  destruct (in_dec ascii_dec c s) as [I|I].
  - destruct (last_occurrence s I) as (a & b & -> & Hb).
    rewrite find_last_app, length_app by easy. lia.
  - rewrite find_last_absent by easy. lia.
Qed.
End Find.

(** ** Characters *)

(** The range tests of [ascii.hpp] do not depend on the signedness of
    [char]. *)
Lemma range_tests_signedness (c : ascii) :
  ascii.is_digit c
  = (Z.leb (ascii.signed_code "0") (ascii.signed_code c)
     && Z.leb (ascii.signed_code c) (ascii.signed_code "9"))
  /\ ascii.is_alphabetic_lowercase c
     = (Z.leb (ascii.signed_code "a") (ascii.signed_code c)
        && Z.leb (ascii.signed_code c) (ascii.signed_code "z"))
  /\ ascii.is_alphabetic_uppercase c
     = (Z.leb (ascii.signed_code "A") (ascii.signed_code c)
        && Z.leb (ascii.signed_code c) (ascii.signed_code "Z")).
Proof. each_char c; repeat split; reflexivity. Qed.

Lemma to_lowercase_alphanumeric (c : ascii) :
  ascii.is_alphanumeric (ascii.to_lowercase c) = ascii.is_alphanumeric c.
Proof. each_char c; reflexivity. Qed.

Lemma to_lowercase_idempotent (c : ascii) :
  ascii.to_lowercase (ascii.to_lowercase c) = ascii.to_lowercase c.
Proof. each_char c; reflexivity. Qed.

Lemma to_lowercase_restricted (c : ascii) :
  contains rfc6838.restricted_list (ascii.to_lowercase c)
  = contains rfc6838.restricted_list c.
Proof. each_char c; reflexivity. Qed.

Lemma to_lowercase_modified_restricted (c : ascii) :
  contains rfc6838.modified_restricted_list (ascii.to_lowercase c)
  = contains rfc6838.modified_restricted_list c.
Proof. each_char c; reflexivity. Qed.

(** The delimiters of the parser are not letters: lowering neither creates
    nor removes one. *)
Lemma to_lowercase_delimiter (c : ascii) :
  Ascii.eqb (ascii.to_lowercase c) "/" = Ascii.eqb c "/"
  /\ Ascii.eqb (ascii.to_lowercase c) "." = Ascii.eqb c "."
  /\ Ascii.eqb (ascii.to_lowercase c) "+" = Ascii.eqb c "+"
  /\ Ascii.eqb (ascii.to_lowercase c) ";" = Ascii.eqb c ";".
Proof. each_char c; repeat split; reflexivity. Qed.

Lemma char_case_variant_lowercase (a b : ascii) :
  char_case_variant a b -> ascii.to_lowercase b = ascii.to_lowercase a.
Proof.
  intros [-> | [-> | ->]]; [reflexivity| |]; each_char a; reflexivity.
Qed.

Lemma case_variant_lowercase (s s' : str) :
  case_variant s s' -> lowercase s' = lowercase s.
Proof.
  induction 1 as [|a b s s' H _ IH]; simpl; [reflexivity|].
  now rewrite IH, (char_case_variant_lowercase a b H).
Qed.

Lemma lowercase_app (a b : str) : lowercase (a ++ b) = lowercase a ++ lowercase b.
Proof. apply map_app. Qed.

(** [ascii::to_lowercase] is the letter table of the specification. *)
Lemma to_lowercase_spec (c : ascii) :
  ascii.to_lowercase c = spec_lowercase_letter c.
Proof. each_char c; reflexivity. Qed.

Lemma lowercase_spec (s : str) : lowercase s = spec_normalize s.
Proof. apply map_ext. exact to_lowercase_spec. Qed.

Lemma lowercase_length (s : str) : length (lowercase s) = length s.
Proof. apply length_map. Qed.

(** ** What a successful constructor stores *)

Lemma type_ctor_value (s : str) (v : rfc6838.type.t) :
  rfc6838.type.ctor s = Ok v -> rfc6838.type.value v = lowercase s.
Proof.
  unfold rfc6838.type.ctor. intros H. case_ifs H. now inversion H.
Qed.

Lemma tree_ctor_value (s : str) (v : rfc6838.tree.t) :
  rfc6838.tree.ctor s = Ok v -> rfc6838.tree.value v = lowercase s.
Proof.
  unfold rfc6838.tree.ctor. intros H. case_ifs H; inversion H; simpl; auto.
  destruct s; [reflexivity | discriminate].
Qed.

Lemma subtype_ctor_value (s : str) (v : rfc6838.subtype.t) :
  rfc6838.subtype.ctor s = Ok v -> rfc6838.subtype.value v = lowercase s.
Proof.
  unfold rfc6838.subtype.ctor. intros H. case_ifs H. now inversion H.
Qed.

Lemma suffix_ctor_value (s : str) (v : rfc6838.suffix.t) :
  rfc6838.suffix.ctor s = Ok v -> rfc6838.suffix.value v = lowercase s.
Proof.
  unfold rfc6838.suffix.ctor. intros H. case_ifs H. now inversion H.
Qed.

Lemma parser_suffix_value (s : str) (o : option rfc6838.suffix.t) :
  rfc6838.media_type.parser_suffix s = Ok o ->
  match o with Some v => rfc6838.suffix.value v | None => [] end = lowercase s.
Proof.
  unfold rfc6838.media_type.parser_suffix. destruct s as [|x r]; simpl.
  - intros H. now inversion H.
  - destruct (rfc6838.suffix.ctor (x :: r)) as [v|w] eqn:E; simpl; [|discriminate].
    intros H. inversion H. now apply suffix_ctor_value in E.
Qed.

(** ** What the lambdas of the parser cut off *)

Lemma parser_type_split (input type_ rest : str) :
  rfc6838.media_type.parser_type input = Ok (type_, rest) ->
  input = type_ ++ "/" :: rest /\ ~ In "/" type_.
Proof.
  unfold rfc6838.media_type.parser_type.
  destruct (Nat.eqb_spec (find "/" input) (length input)) as [E|E]; [discriminate|].
  intros H. injection H as <- <-. split.
  - apply find_split. pose proof (find_le "/" input). lia.
  - apply find_prefix_absent.
Qed.

Lemma parser_tree_split (input tree_ rest : str) :
  rfc6838.media_type.parser_tree input = Ok (tree_, rest) ->
  input = tree_ ++ rest.
Proof.
  unfold rfc6838.media_type.parser_tree.
  destruct (find "." input =? 0); [discriminate|].
  destruct (find "." input =? length input); intros H; injection H as <- <-.
  - reflexivity.
  - symmetry. exact (firstn_skipn (S (find "." input)) input).
Qed.

Lemma parser_subtype_split (input subtype_ rest : str) :
  rfc6838.media_type.parser_subtype input = (subtype_, rest) ->
  input = subtype_ ++ rest.
Proof.
  unfold rfc6838.media_type.parser_subtype. intros H. injection H as <- <-.
  symmetry. apply firstn_skipn.
Qed.

Lemma truncate_no_parameters (s : str) :
  ~ In ";" s -> firstn (find ";" s) s = s.
Proof.
  intros H. apply find_absent in H. rewrite H. apply firstn_all.
Qed.

(** A successful parse, step by step. *)
Lemma parser_ok (s : str) (m : rfc6838.media_type.t) :
  rfc6838.media_type.parser s = Ok m ->
  exists type_ r1 tree_ r2 subtype_ r3,
    rfc6838.media_type.parser_type (firstn (find ";" s) s) = Ok (type_, r1)
    /\ rfc6838.media_type.parser_tree r1 = Ok (tree_, r2)
    /\ rfc6838.media_type.parser_subtype r2 = (subtype_, r3)
    /\ rfc6838.media_type.parser_suffix r3 = Ok (rfc6838.media_type.suffix m)
    /\ rfc6838.type.ctor type_ = Ok (rfc6838.media_type.type m)
    /\ rfc6838.tree.ctor tree_ = Ok (rfc6838.media_type.tree m)
    /\ rfc6838.subtype.ctor subtype_ = Ok (rfc6838.media_type.subtype m).
Proof.
  unfold rfc6838.media_type.parser.
  destruct (rfc6838.media_type.parser_type _) as [[type_ r1]|] eqn:E1; [|discriminate].
  cbn [bind].
  destruct (rfc6838.media_type.parser_tree r1) as [[tree_ r2]|] eqn:E2; [|discriminate].
  cbn [bind].
  destruct (rfc6838.media_type.parser_subtype r2) as [subtype_ r3] eqn:E3.
  cbv beta iota.
  destruct (rfc6838.media_type.parser_suffix r3) as [o|] eqn:E4; [|discriminate].
  cbn [bind].
  destruct (rfc6838.type.ctor type_) as [a|] eqn:E5; cbn [bind]; [|discriminate].
  destruct (rfc6838.tree.ctor tree_) as [b|] eqn:E6; cbn [bind]; [|discriminate].
  destruct (rfc6838.subtype.ctor subtype_) as [c|] eqn:E7; cbn [bind]; [|discriminate].
  intros H. inversion H. simpl.
  exists type_, r1, tree_, r2, subtype_, r3. repeat split; assumption.
Qed.

(** ** Round trip *)

(** C1.  For every string that contains no [';'] and from which the
    construction of a media type succeeds, the canonical string of the value
    constructed is the input with every ASCII uppercase letter replaced by
    its lowercase counterpart, as [spec_normalize] spells it out, and with
    every other character kept. *)
Theorem round_trip (s : str) (m : rfc6838.media_type.t) :
  ~ In ";" s ->
  rfc6838.media_type.ctor s = Ok m ->
  rfc6838.media_type.string m = spec_normalize s.
Proof.
  intros Hs H. apply parser_ok in H.
  destruct H as (type_ & r1 & tree_ & r2 & subtype_ & r3 & H1 & H2 & H3 & H4 & H5 & H6 & H7).
  rewrite truncate_no_parameters in H1 by assumption.
  apply parser_type_split in H1 as [-> _].
  apply parser_tree_split in H2 as ->.
  apply parser_subtype_split in H3 as ->.
  apply type_ctor_value in H5. apply tree_ctor_value in H6.
  apply subtype_ctor_value in H7. apply parser_suffix_value in H4.
  unfold rfc6838.media_type.string, rfc6838.type.string, rfc6838.tree.string,
    rfc6838.subtype.string, rfc6838.suffix.string.
  rewrite H5, H6, H7, H4, <- lowercase_spec. unfold lit, lowercase. simpl.
  rewrite map_app. simpl. now rewrite !map_app.
Qed.

Lemma round_trip_witness :
  ~ In ";" (lit "Application/VND.Api+JSON")
  /\ rfc6838.media_type.ctor (lit "Application/VND.Api+JSON")
     = Ok (rfc6838.media_type.mk
             (rfc6838.type.mk (lit "application")) (rfc6838.tree.mk (lit "vnd."))
             (rfc6838.subtype.mk (lit "api"))
             (Some (rfc6838.suffix.mk (lit "+json"))))
  /\ rfc6838.media_type.string
       (rfc6838.media_type.mk
          (rfc6838.type.mk (lit "application")) (rfc6838.tree.mk (lit "vnd."))
          (rfc6838.subtype.mk (lit "api")) (Some (rfc6838.suffix.mk (lit "+json"))))
     = lit "application/vnd.api+json".
Proof.
  assert (N : ~ In ";" (lit "Application/VND.Api+JSON")).
  { simpl. intros H.
    repeat (destruct H as [H|H]; [discriminate H|]). exact H. }
  split; [exact N|]. split; [reflexivity|].
  exact (round_trip (lit "Application/VND.Api+JSON") _ N eq_refl).
Defined.

(** ** The two encodings *)


Lemma nested_string (m : rfc6838.media_type.t) :
  part_000.string (nested m) = rfc6838.media_type.string m.
Proof. destruct m as [a b c [d|]]; reflexivity. Qed.

(** The component constructors agree, messages included. *)
Lemma media_top_type_ctor (s : str) :
  part_000.media_top_type.ctor s
  = map_result (fun v => part_000.media_top_type.mk (rfc6838.type.value v))
      (rfc6838.type.ctor s).
Proof.
  unfold part_000.media_top_type.ctor, rfc6838.type.ctor.
  change (part_000.allowed_characters s _) with (rfc6838.is_restricted_name s).
  repeat match goal with |- context [if ?b then _ else _] => destruct b end;
    reflexivity.
Qed.

Lemma media_tree_ctor (s : str) :
  part_000.media_tree.ctor s
  = map_result (fun v => part_000.media_tree.mk (rfc6838.tree.value v))
      (rfc6838.tree.ctor s).
Proof.
  unfold part_000.media_tree.ctor, rfc6838.tree.ctor.
  change (part_000.allowed_characters (removelast s) _)
    with (rfc6838.is_modified_restricted_name (removelast s)).
  repeat match goal with |- context [if ?b then _ else _] => destruct b end;
    reflexivity.
Qed.

Lemma media_subtype_ctor (s : str) :
  part_000.media_subtype.ctor s
  = map_result (fun v => part_000.media_subtype.mk (rfc6838.subtype.value v))
      (rfc6838.subtype.ctor s).
Proof.
  unfold part_000.media_subtype.ctor, rfc6838.subtype.ctor.
  change (part_000.allowed_characters s _) with (rfc6838.is_restricted_name s).
  repeat match goal with |- context [if ?b then _ else _] => destruct b end;
    reflexivity.
Qed.

Lemma media_suffix_ctor (s : str) :
  part_000.media_suffix.ctor s
  = map_result (fun v => part_000.media_suffix.mk (rfc6838.suffix.value v))
      (rfc6838.suffix.ctor s).
Proof.
  unfold part_000.media_suffix.ctor, rfc6838.suffix.ctor.
  change (part_000.allowed_characters (tl s) _)
    with (rfc6838.is_modified_restricted_name (tl s)).
  replace (nth 1 s zero) with (front (tl s)) by (destruct s as [|a [|b r]]; reflexivity).
  repeat match goal with |- context [if ?b then _ else _] => destruct b end;
    reflexivity.
Qed.

Lemma parser_suffix_000 (s : str) :
  part_000.parser_suffix s
  = map_result (option_map (fun x => part_000.media_suffix.mk (rfc6838.suffix.value x)))
      (rfc6838.media_type.parser_suffix s).
Proof.
  unfold part_000.parser_suffix, rfc6838.media_type.parser_suffix.
  destruct (empty s); [reflexivity|]. rewrite media_suffix_ctor.
  destruct (rfc6838.suffix.ctor s); reflexivity.
Qed.

(** The lambdas of the nested encoding cut the view where those of
    [rfc6838] do, and construct the component at once. *)
Lemma parser_type_000 (input : str) :
  part_000.parser_type input
  = ('(type_, rest) <- rfc6838.media_type.parser_type input ;;
     r <- part_000.media_top_type.ctor type_ ;; Ok (r, rest)).
Proof.
  unfold part_000.parser_type, rfc6838.media_type.parser_type.
  pose proof (find_le "/" input) as L.
  rewrite length_firstn, Nat.min_l by exact L.
  destruct (find "/" input =? length input); [reflexivity|].
  now rewrite Nat.add_1_r.
Qed.

Lemma parser_tree_000 (input : str) :
  part_000.parser_tree input
  = ('(tree_, rest) <- rfc6838.media_type.parser_tree input ;;
     r <- part_000.media_tree.ctor tree_ ;; Ok (r, rest)).
Proof.
  unfold part_000.parser_tree, rfc6838.media_type.parser_tree.
  pose proof (find_le "." input) as L.
  destruct (find "." input =? 0); [reflexivity|].
  destruct (Nat.eqb_spec (find "." input) (length input)) as [E|E]; [reflexivity|].
  rewrite length_firstn, Nat.min_l by lia. reflexivity.
Qed.

Lemma parser_subtype_000 (input : str) :
  part_000.parser_subtype input
  = (let '(subtype_, rest) := rfc6838.media_type.parser_subtype input in
     r <- part_000.media_subtype.ctor subtype_ ;; Ok (r, rest)).
Proof.
  unfold part_000.parser_subtype, rfc6838.media_type.parser_subtype.
  pose proof (find_last_le "+" input) as L.
  rewrite length_firstn, Nat.min_l by exact L. reflexivity.
Qed.

(** The nested encoding accepts what [rfc6838] accepts and builds the same
    value; only the order in which the checks run differs. *)
Lemma part_000_refines (input : str) :
  to_option (part_000.ctor input)
  = option_map nested (to_option (rfc6838.media_type.ctor input)).
Proof.
  unfold part_000.ctor, rfc6838.media_type.ctor,
    part_000.parser, rfc6838.media_type.parser.
  rewrite parser_type_000.
  destruct (rfc6838.media_type.parser_type _) as [[type_ r1]|]; [|reflexivity].
  cbn [bind]. rewrite media_top_type_ctor.
  destruct (rfc6838.type.ctor type_) as [a|]; cbn [bind map_result].
  - rewrite parser_tree_000.
    destruct (rfc6838.media_type.parser_tree r1) as [[tree_ r2]|];
      cbn [bind]; [|reflexivity].
    rewrite media_tree_ctor.
    destruct (rfc6838.tree.ctor tree_) as [b|]; cbn [bind map_result].
    + rewrite parser_subtype_000.
      destruct (rfc6838.media_type.parser_subtype r2) as [subtype_ r3].
      rewrite media_subtype_ctor.
      destruct (rfc6838.subtype.ctor subtype_) as [c|]; cbn [bind map_result].
      * rewrite parser_suffix_000.
        destruct (rfc6838.media_type.parser_suffix r3) as [[d|]|]; reflexivity.
      * destruct (rfc6838.media_type.parser_suffix r3); reflexivity.
    + destruct (rfc6838.media_type.parser_subtype r2) as [subtype_ r3].
      destruct (rfc6838.media_type.parser_suffix r3); reflexivity.
  - destruct (rfc6838.media_type.parser_tree r1) as [[tree_ r2]|];
      cbn [bind]; [|reflexivity].
    destruct (rfc6838.media_type.parser_subtype r2) as [subtype_ r3].
    destruct (rfc6838.media_type.parser_suffix r3); reflexivity.
Qed.

(** ** The steps of the parser *)

Lemma to_option_none {A : Type} (r : result A) :
  to_option r = None -> exists what, r = Throw what.
Proof. destruct r as [a|w]; [discriminate|]. now exists w. Qed.

Lemma part_000_fails (input : str) (what : string) :
  rfc6838.media_type.ctor input = Throw what ->
  exists what', part_000.ctor input = Throw what'.
Proof.
  intros H. apply to_option_none. rewrite part_000_refines, H. reflexivity.
Qed.

(** What [parser_tree] does on a view that is not empty. *)
Lemma parser_tree_leading_dot (rest : str) :
  rfc6838.media_type.parser_tree ("." :: rest) = Throw missing_tree.
Proof. reflexivity. Qed.

Lemma parser_tree_no_dot (input : str) :
  input <> [] -> ~ In "." input ->
  rfc6838.media_type.parser_tree input = Ok ([], input).
Proof.
  intros N H. unfold rfc6838.media_type.parser_tree.
  apply find_absent in H. rewrite H, Nat.eqb_refl.
  destruct input; [easy|]. reflexivity.
Qed.

Lemma parser_tree_first_dot (label rest : str) :
  label <> [] -> ~ In "." label ->
  rfc6838.media_type.parser_tree (label ++ "." :: rest)
  = Ok (label ++ ["."], rest).
Proof.
  intros N H. unfold rfc6838.media_type.parser_tree.
  rewrite find_app by exact H.
  destruct (Nat.eqb_spec (length label) 0) as [E|E].
  { destruct label; [easy|discriminate]. }
  destruct (Nat.eqb_spec (length label) (length (label ++ "." :: rest))) as [F|F].
  { rewrite length_app in F. simpl in F. lia. }
  replace (S (length label)) with (length (label ++ ["."]))
    by (rewrite length_app; simpl; lia).
  replace (label ++ "." :: rest) with ((label ++ ["."]) ++ rest)
    by (rewrite <- app_assoc; reflexivity).
  now rewrite firstn_app_exact, skipn_app_exact.
Qed.

(** C3, at the input the code gets wrong.  On ["text/"] the view left
    after the ['/'] is empty: it holds no ['.'], and still the tree step of
    both encodings throws the error about a missing tree instead of yielding
    the standard tree and handing the view to the subtype step. *)
Theorem tree_step_empty_remainder :
  rfc6838.media_type.parser_type (before_parameters (lit "text/"))
    = Ok (lit "text", [])
  /\ ~ In "." (@nil ascii)
  /\ rfc6838.media_type.parser_tree [] = Throw missing_tree
  /\ part_000.parser_tree [] = Throw missing_tree
  /\ rfc6838.media_type.ctor (lit "text/") = Throw missing_tree
  /\ part_000.ctor (lit "text/") = Throw missing_tree
  /\ rfc6838.tree.ctor [] = Ok (rfc6838.tree.mk [])
  /\ rfc6838.subtype.ctor []
     = Throw "media type: subtype: lenght required to be [1..127] characters".
Proof. repeat split; try reflexivity. intros []. Qed.

(** C5.  When the part of the input before the first [';'] holds no ['/'],
    both constructions fail with the error on the missing delimiter after
    the type. *)
Theorem missing_delimiter_after_type (input : str) :
  ~ In "/" (before_parameters input) ->
  rfc6838.media_type.ctor input = Throw missing_delimiter
  /\ part_000.ctor input = Throw missing_delimiter.
Proof.
  intros H. apply find_absent in H.
  unfold rfc6838.media_type.ctor, rfc6838.media_type.parser,
    part_000.ctor, part_000.parser.
  rewrite parser_type_000. unfold rfc6838.media_type.parser_type.
  fold (before_parameters input). rewrite H, Nat.eqb_refl. split; reflexivity.
Qed.

Lemma missing_delimiter_after_type_witness :
  ~ In "/" (before_parameters (lit "application.json"))
  /\ rfc6838.media_type.ctor (lit "application.json") = Throw missing_delimiter
  /\ part_000.ctor (lit "application.json") = Throw missing_delimiter.
Proof.
  assert (N : ~ In "/" (before_parameters (lit "application.json"))).
  { simpl. intros H. repeat (destruct H as [H|H]; [discriminate H|]). exact H. }
  split; [exact N|].
  exact (missing_delimiter_after_type (lit "application.json") N).
Defined.

(** ** Views that end with ['+'] *)

(** Cutting a view behind the first [c] keeps its last character when that
    one is not [c]. *)
Lemma cut_keeps_last (c d : ascii) (a : str) :
  c <> d ->
  find c (a ++ [d]) <> length (a ++ [d]) ->
  find c (a ++ [d]) = find c a
  /\ find c a < length a
  /\ skipn (S (find c (a ++ [d]))) (a ++ [d]) = skipn (S (find c a)) a ++ [d].
Proof.
  intros N H.
  assert (I : In c a).
  { destruct (in_dec ascii_dec c a) as [I|I]; [exact I|]. exfalso. apply H.
    apply find_absent. intros J. apply in_app_or in J as [J|[J|[]]]; auto. }
  pose proof (proj1 (find_present c a) I) as L.
  rewrite find_app_l by exact I. repeat split; [exact L|].
  rewrite skipn_app. f_equal.
  replace (S (find c a) - length a) with 0 by lia. reflexivity.
Qed.

Lemma parser_type_ends_plus (a type_ rest : str) :
  rfc6838.media_type.parser_type (a ++ ["+"]) = Ok (type_, rest) ->
  exists b, rest = b ++ ["+"].
Proof.
  unfold rfc6838.media_type.parser_type.
  destruct (Nat.eqb_spec (find "/" (a ++ ["+"])) (length (a ++ ["+"]))) as [E|E];
    [discriminate|].
  intros H.
  assert (rest = skipn (S (find "/" (a ++ ["+"]))) (a ++ ["+"])) as ->
      by congruence.
  destruct (cut_keeps_last "/" "+" a) as (_ & _ & ->); [discriminate|exact E|].
  now eexists.
Qed.

Lemma parser_tree_ends_plus (a tree_ rest : str) :
  rfc6838.media_type.parser_tree (a ++ ["+"]) = Ok (tree_, rest) ->
  exists b, rest = b ++ ["+"].
Proof.
  unfold rfc6838.media_type.parser_tree.
  destruct (find "." (a ++ ["+"]) =? 0); [discriminate|].
  destruct (Nat.eqb_spec (find "." (a ++ ["+"])) (length (a ++ ["+"]))) as [E|E];
    intros H.
  - exists a. congruence.
  - assert (rest = skipn (S (find "." (a ++ ["+"]))) (a ++ ["+"])) as ->
        by congruence.
    destruct (cut_keeps_last "." "+" a) as (_ & _ & R); [discriminate|exact E|].
    exists (skipn (S (find "." a)) a). exact R.
Qed.

Lemma parser_subtype_ends_plus (a : str) :
  rfc6838.media_type.parser_subtype (a ++ ["+"]) = (a, ["+"]).
Proof.
  unfold rfc6838.media_type.parser_subtype.
  rewrite (find_last_app "+" a []) by (intros []).
  now rewrite firstn_app_exact, skipn_app_exact.
Qed.

(** C10.  When the part of the input before the first [';'] ends with
    ['+'], construction fails in both encodings.  In [rfc6838] the error is
    the one on the missing ['/'], the one on the missing tree, or, for a
    prefix that passes both steps, the length error of the suffix
    constructor, which receives the single character ['+']. *)
Theorem trailing_plus_fails (input a : str) :
  before_parameters input = a ++ ["+"] ->
  (exists what, rfc6838.media_type.ctor input = Throw what
                /\ (what = missing_delimiter \/ what = missing_tree
                    \/ what = suffix_length))
  /\ (exists what, part_000.ctor input = Throw what)
  /\ (forall type_ r1 tree_ r2,
         rfc6838.media_type.parser_type (before_parameters input) = Ok (type_, r1) ->
         rfc6838.media_type.parser_tree r1 = Ok (tree_, r2) ->
         snd (rfc6838.media_type.parser_subtype r2) = ["+"]
         /\ rfc6838.media_type.parser_suffix ["+"] = Throw suffix_length).
Proof.
  intros H.
  assert (S3 : forall type_ r1 tree_ r2,
             rfc6838.media_type.parser_type (before_parameters input) = Ok (type_, r1) ->
             rfc6838.media_type.parser_tree r1 = Ok (tree_, r2) ->
             snd (rfc6838.media_type.parser_subtype r2) = ["+"]
             /\ rfc6838.media_type.parser_suffix ["+"] = Throw suffix_length).
  { intros type_ r1 tree_ r2 H1 H2. rewrite H in H1.
    apply parser_type_ends_plus in H1 as (b & ->).
    apply parser_tree_ends_plus in H2 as (d & ->).
    rewrite parser_subtype_ends_plus. split; reflexivity. }
  assert (S1 : exists what, rfc6838.media_type.ctor input = Throw what
                /\ (what = missing_delimiter \/ what = missing_tree
                    \/ what = suffix_length)).
  { unfold rfc6838.media_type.ctor, rfc6838.media_type.parser.
    fold (before_parameters input).
    unfold rfc6838.media_type.parser_type at 1.
    destruct (find "/" (before_parameters input) =? length (before_parameters input)) eqn:E1.
    { eexists; split; [reflexivity|]. now left. }
    cbn [bind].
    pose proof (S3 (firstn (find "/" (before_parameters input)) (before_parameters input))
                  (skipn (S (find "/" (before_parameters input))) (before_parameters input)))
      as S3'.
    unfold rfc6838.media_type.parser_type in S3'. rewrite E1 in S3'.
    specialize (fun tree_ r2 => S3' tree_ r2 eq_refl).
    set (r1 := skipn _ _) in *.
    unfold rfc6838.media_type.parser_tree at 1.
    destruct (find "." r1 =? 0) eqn:E2.
    { eexists; split; [reflexivity|]. right. now left. }
    destruct (rfc6838.media_type.parser_tree r1) as [[tree_ r2]|] eqn:E3.
    2:{ unfold rfc6838.media_type.parser_tree in E3. rewrite E2 in E3.
        destruct (find "." r1 =? length r1); discriminate E3. }
    destruct (S3' tree_ r2 eq_refl) as [P Q].
    unfold rfc6838.media_type.parser_tree in E3. rewrite E2 in E3.
    rewrite E3. cbn [bind].
    destruct (rfc6838.media_type.parser_subtype r2) as [subtype_ r3].
    simpl in P. subst r3. rewrite Q. cbn [bind].
    eexists; split; [reflexivity|]. right. now right. }
  split; [exact S1|]. split; [|exact S3].
  destruct S1 as (w & Hw & _). exact (part_000_fails input w Hw).
Qed.

Lemma trailing_plus_fails_witness :
  before_parameters (lit "application/json+;q=1") = lit "application/json" ++ ["+"]
  /\ (exists what, rfc6838.media_type.ctor (lit "application/json+;q=1") = Throw what
                   /\ (what = missing_delimiter \/ what = missing_tree
                       \/ what = suffix_length))
  /\ (exists what, part_000.ctor (lit "application/json+;q=1") = Throw what).
Proof.
  split; [reflexivity|].
  pose proof (trailing_plus_fails (lit "application/json+;q=1")
                (lit "application/json") eq_refl) as (H1 & H2 & _).
  split; [exact H1 | exact H2].
Defined.

(** ** The split between subtype and suffix *)

Lemma in_firstn (c : ascii) (n : nat) (s : str) : In c (firstn n s) -> In c s.
Proof.
  intros H. rewrite <- (firstn_skipn n s). apply in_or_app. now left.
Qed.

Lemma parser_subtype_last_plus (input : str) :
  exists subtype_ rest,
    rfc6838.media_type.parser_subtype input = (subtype_, rest)
    /\ input = subtype_ ++ rest
    /\ ((~ In "+" input /\ subtype_ = input /\ rest = [])
        \/ (exists tail, rest = "+" :: tail /\ ~ In "+" tail)).
Proof.
  unfold rfc6838.media_type.parser_subtype.
  destruct (in_dec ascii_dec "+" input) as [I|I].
  - destruct (last_occurrence "+" input I) as (a & b & -> & Hb).
    rewrite find_last_app by exact Hb.
    rewrite firstn_app_exact, skipn_app_exact.
    exists a, ("+" :: b). repeat split. right. now exists b.
  - rewrite find_last_absent by exact I. rewrite firstn_all, skipn_all.
    exists input, []. repeat split; [now rewrite app_nil_r|]. now left.
Qed.

(** C4.  The view that reaches the split is cut at its last ['+']: the
    subtype candidate is what precedes it, the suffix candidate runs from
    that ['+'] to the end and holds no other ['+']; with no ['+'] the
    candidate is empty and the suffix is absent, no error is raised for it.
    The nested encoding cuts at the same place.  ["application/x+y+json"]
    has subtype ["x+y"] and suffix ["+json"]. *)
Theorem suffix_split_last_plus (input type_ r1 tree_ r2 : str) :
  rfc6838.media_type.parser_type (before_parameters input) = Ok (type_, r1) ->
  rfc6838.media_type.parser_tree r1 = Ok (tree_, r2) ->
  (exists subtype_ rest,
      rfc6838.media_type.parser_subtype r2 = (subtype_, rest)
      /\ part_000.parser_subtype r2
         = (r <- part_000.media_subtype.ctor subtype_ ;; Ok (r, rest))
      /\ r2 = subtype_ ++ rest
      /\ ((~ In "+" r2 /\ subtype_ = r2 /\ rest = []
           /\ rfc6838.media_type.parser_suffix rest = Ok None
           /\ part_000.parser_suffix rest = Ok None)
          \/ (exists tail, rest = "+" :: tail /\ ~ In "+" tail))
      /\ (~ In "+" input ->
          rest = []
          /\ forall m, rfc6838.media_type.ctor input = Ok m ->
                       rfc6838.media_type.suffix m = None))
  /\ option_map components
       (to_option (rfc6838.media_type.ctor (lit "application/x+y+json")))
     = Some (lit "application", [], lit "x+y", Some (lit "+json"))
  /\ option_map components_000 (to_option (part_000.ctor (lit "application/x+y+json")))
     = Some (lit "application", [], lit "x+y", Some (lit "+json")).
Proof.
  intros H1 H2. split; [|split; reflexivity].
  destruct (parser_subtype_last_plus r2) as (subtype_ & rest & E & S & C).
  exists subtype_, rest. split; [exact E|].
  split; [rewrite parser_subtype_000, E; reflexivity|].
  split; [exact S|].
  assert (N : ~ In "+" r2 -> rest = []).
  { intros N. destruct C as [(_ & _ & C)|(tail & -> & _)]; [exact C|].
    exfalso. apply N. rewrite S. apply in_or_app. right. now left. }
  split.
  - destruct C as [(C1 & C2 & C3)|C]; [left|right; exact C].
    subst rest. repeat split; auto.
  - intros P.
    assert (Q : ~ In "+" r2).
    { intros I. apply P.
      apply (in_firstn "+" (find ";" input) input). fold (before_parameters input).
      apply parser_type_split in H1 as [-> _].
      apply parser_tree_split in H2 as ->.
      apply in_or_app. right. right. apply in_or_app. now right. }
    split; [exact (N Q)|].
    intros m Hm. apply parser_ok in Hm.
    destruct Hm as (t' & r1' & tr' & r2' & st' & r3' & K1 & K2 & K3 & K4 & _).
    fold (before_parameters input) in K1. rewrite H1 in K1.
    injection K1 as <- <-. rewrite H2 in K2. injection K2 as <- <-.
    rewrite E in K3. injection K3 as <- <-.
    rewrite (N Q) in K4.
    change (Ok None = Ok (rfc6838.media_type.suffix m)) in K4. congruence.
Qed.

Lemma suffix_split_last_plus_witness :
  rfc6838.media_type.parser_type (before_parameters (lit "application/x+y+json"))
    = Ok (lit "application", lit "x+y+json")
  /\ rfc6838.media_type.parser_tree (lit "x+y+json") = Ok ([], lit "x+y+json")
  /\ exists subtype_ rest,
      rfc6838.media_type.parser_subtype (lit "x+y+json") = (subtype_, rest)
      /\ lit "x+y+json" = subtype_ ++ rest.
Proof.
  split; [reflexivity|]. split; [reflexivity|].
  destruct (proj1 (suffix_split_last_plus (lit "application/x+y+json")
                     (lit "application") (lit "x+y+json") [] (lit "x+y+json")
                     eq_refl eq_refl))
    as (subtype_ & rest & E & _ & S & _).
  exists subtype_, rest. split; [exact E | exact S].
Defined.

(** ** Length boundaries *)

Lemma empty_length (s : str) : empty s = (length s =? 0).
Proof. destruct s; reflexivity. Qed.

Section Length.
Variable s : str.

Lemma type_ctor_in_range :
  1 <= length s <= 127 -> name_rules s = true ->
  rfc6838.type.ctor s = Ok (rfc6838.type.mk (lowercase s)).
Proof.
  intros L R. apply andb_prop in R as [R1 R2].
  unfold rfc6838.type.ctor. rewrite empty_length, R1, R2.
  destruct (Nat.eqb_spec (length s) 0); [lia|].
  destruct (Nat.ltb_spec 127 (length s)); [lia|]. reflexivity.
Qed.

Lemma subtype_ctor_in_range :
  1 <= length s <= 127 -> name_rules s = true ->
  rfc6838.subtype.ctor s = Ok (rfc6838.subtype.mk (lowercase s)).
Proof.
  intros L R. apply andb_prop in R as [R1 R2].
  unfold rfc6838.subtype.ctor. rewrite empty_length, R1, R2.
  destruct (Nat.eqb_spec (length s) 0); [lia|].
  destruct (Nat.ltb_spec 127 (length s)); [lia|]. reflexivity.
Qed.

Lemma parameter_name_ctor_in_range :
  1 <= length s <= 127 -> name_rules s = true ->
  rfc6838.parameter_name.ctor s = Ok (rfc6838.parameter_name.mk (lowercase s)).
Proof.
  intros L R. apply andb_prop in R as [R1 R2].
  unfold rfc6838.parameter_name.ctor. rewrite empty_length, R1, R2.
  destruct (Nat.eqb_spec (length s) 0); [lia|].
  destruct (Nat.ltb_spec 127 (length s)); [lia|]. reflexivity.
Qed.

Lemma tree_ctor_in_range :
  2 <= length s <= 127 -> tree_rules s = true ->
  rfc6838.tree.ctor s = Ok (rfc6838.tree.mk (lowercase s)).
Proof.
  intros L R. apply andb_prop in R as [R R3]. apply andb_prop in R as [R1 R2].
  unfold rfc6838.tree.ctor. rewrite empty_length, R1, R2, R3.
  destruct (Nat.eqb_spec (length s) 0); [lia|].
  destruct (Nat.ltb_spec (length s) 2); [lia|].
  destruct (Nat.ltb_spec 127 (length s)); [lia|]. reflexivity.
Qed.

Lemma suffix_ctor_in_range :
  2 <= length s <= 127 -> suffix_rules s = true ->
  rfc6838.suffix.ctor s = Ok (rfc6838.suffix.mk (lowercase s)).
Proof.
  intros L R. apply andb_prop in R as [R R3]. apply andb_prop in R as [R1 R2].
  unfold rfc6838.suffix.ctor. rewrite R1, R2, R3.
  destruct (Nat.ltb_spec (length s) 2); [lia|].
  destruct (Nat.ltb_spec 127 (length s)); [lia|]. reflexivity.
Qed.

Lemma parameter_value_ctor_in_range :
  3 <= length s <= 127 -> parameter_value_rules s = true ->
  rfc6838.parameter_value.ctor s = Ok (rfc6838.parameter_value.mk s).
Proof.
  intros L R. unfold parameter_value_rules in R.
  unfold rfc6838.parameter_value.ctor, rfc6838.parameter_value.inner_string.
  cbn [rfc6838.parameter_value.backend].
  rewrite empty_length.
  destruct (Nat.eqb_spec (length s) 0); [lia|].
  destruct (Nat.ltb_spec 127 (length s)); [lia|].
  destruct (Nat.eqb_spec (length s) 1); [lia|].
  destruct (Nat.eqb_spec (length s) 2); [lia|].
  cbn [orb].
  destruct (Ascii.eqb (front s) dquote).
  - apply andb_prop in R as [R1 R2]. rewrite R1. cbn [negb].
    apply negb_true_iff in R2. now rewrite R2.
  - now rewrite R.
Qed.

(** Beyond 127 characters every constructor throws its length error. *)
Lemma ctor_too_long :
  127 < length s ->
  rfc6838.type.ctor s
    = Throw "media type: top-level type: lenght required to be [1..127] characters"
  /\ rfc6838.tree.ctor s
     = Throw "media type: tree: lenght required to be [2..127] characters"
  /\ rfc6838.subtype.ctor s
     = Throw "media type: subtype: lenght required to be [1..127] characters"
  /\ rfc6838.suffix.ctor s
     = Throw "media type: suffix: lenght required to be [2..127] characters"
  /\ rfc6838.parameter_name.ctor s
     = Throw "media type: parameter name: lenght required to be [1..127] characters"
  /\ rfc6838.parameter_value.ctor s
     = Throw "media type: parameter value: lenght required to be [1..127] characters".
Proof.
  intros L.
  unfold rfc6838.type.ctor, rfc6838.tree.ctor, rfc6838.subtype.ctor,
    rfc6838.suffix.ctor, rfc6838.parameter_name.ctor, rfc6838.parameter_value.ctor.
  cbn [rfc6838.parameter_value.backend].
  rewrite empty_length.
  destruct (Nat.eqb_spec (length s) 0); [lia|].
  destruct (Nat.ltb_spec 127 (length s)); [|lia].
  rewrite !orb_true_r. repeat split; reflexivity.
Qed.
End Length.

(** C6.  An otherwise valid string of exactly 127 characters is accepted by
    each component constructor and a string of 128 characters is rejected by
    each of them with its length error; the empty string is rejected by the
    constructors of the top-level type and of the subtype and accepted by
    the one of the tree, as the standard tree. *)
Theorem length_boundaries (ty tr st sf pn pv long : str) :
  length ty = 127 -> name_rules ty = true ->
  length tr = 127 -> tree_rules tr = true ->
  length st = 127 -> name_rules st = true ->
  length sf = 127 -> suffix_rules sf = true ->
  length pn = 127 -> name_rules pn = true ->
  length pv = 127 -> parameter_value_rules pv = true ->
  length long = 128 ->
  (rfc6838.type.ctor ty = Ok (rfc6838.type.mk (lowercase ty))
   /\ rfc6838.tree.ctor tr = Ok (rfc6838.tree.mk (lowercase tr))
   /\ rfc6838.subtype.ctor st = Ok (rfc6838.subtype.mk (lowercase st))
   /\ rfc6838.suffix.ctor sf = Ok (rfc6838.suffix.mk (lowercase sf))
   /\ rfc6838.parameter_name.ctor pn = Ok (rfc6838.parameter_name.mk (lowercase pn))
   /\ rfc6838.parameter_value.ctor pv = Ok (rfc6838.parameter_value.mk pv))
  /\ (succeeds (rfc6838.type.ctor long) = false
      /\ succeeds (rfc6838.tree.ctor long) = false
      /\ succeeds (rfc6838.subtype.ctor long) = false
      /\ succeeds (rfc6838.suffix.ctor long) = false
      /\ succeeds (rfc6838.parameter_name.ctor long) = false
      /\ succeeds (rfc6838.parameter_value.ctor long) = false)
  /\ (succeeds (rfc6838.type.ctor []) = false
      /\ succeeds (rfc6838.subtype.ctor []) = false
      /\ rfc6838.tree.ctor [] = Ok (rfc6838.tree.mk [])
      /\ rfc6838.tree.standard (rfc6838.tree.mk []) = true).
Proof.
  intros L1 R1 L2 R2 L3 R3 L4 R4 L5 R5 L6 R6 L7. split; [|split].
  - repeat split.
    + apply type_ctor_in_range; [lia|exact R1].
    + apply tree_ctor_in_range; [lia|exact R2].
    + apply subtype_ctor_in_range; [lia|exact R3].
    + apply suffix_ctor_in_range; [lia|exact R4].
    + apply parameter_name_ctor_in_range; [lia|exact R5].
    + apply parameter_value_ctor_in_range; [lia|exact R6].
  - destruct (ctor_too_long long) as (-> & -> & -> & -> & -> & ->); [lia|].
    repeat split; reflexivity.
  - repeat split; reflexivity.
Qed.

Lemma length_boundaries_witness :
  rfc6838.type.ctor a127 = Ok (rfc6838.type.mk a127)
  /\ rfc6838.tree.ctor tree127 = Ok (rfc6838.tree.mk tree127)
  /\ rfc6838.subtype.ctor a127 = Ok (rfc6838.subtype.mk a127)
  /\ rfc6838.suffix.ctor suffix127 = Ok (rfc6838.suffix.mk suffix127)
  /\ succeeds (rfc6838.type.ctor a128) = false
  /\ succeeds (rfc6838.tree.ctor a128) = false
  /\ succeeds (rfc6838.subtype.ctor a128) = false
  /\ succeeds (rfc6838.suffix.ctor a128) = false.
Proof.
  pose proof (length_boundaries a127 tree127 a127 suffix127 a127 quoted127 a128
                eq_refl eq_refl eq_refl eq_refl eq_refl eq_refl eq_refl eq_refl
                eq_refl eq_refl eq_refl eq_refl eq_refl)
    as ((H1 & H2 & H3 & H4 & _) & (K1 & K2 & K3 & K4 & _) & _).
  repeat split; assumption.
Defined.

(** ** Case-insensitive construction *)

Lemma lowercase_idempotent (s : str) : lowercase (lowercase s) = lowercase s.
Proof.
  unfold lowercase. rewrite map_map. apply map_ext.
  intros c. apply to_lowercase_idempotent.
Qed.

Lemma front_lowercase (s : str) :
  front (lowercase s) = ascii.to_lowercase (front s).
Proof. destruct s; reflexivity. Qed.

Lemma back_lowercase (s : str) :
  back (lowercase s) = ascii.to_lowercase (back s).
Proof.
  unfold back. induction s as [|a [|b r] IH]; try reflexivity.
  exact IH.
Qed.

Lemma removelast_lowercase (s : str) :
  removelast (lowercase s) = lowercase (removelast s).
Proof.
  induction s as [|a [|b r] IH]; try reflexivity.
  change (ascii.to_lowercase a :: removelast (lowercase (b :: r))
          = ascii.to_lowercase a :: lowercase (removelast (b :: r))).
  now rewrite IH.
Qed.

Lemma tl_lowercase (s : str) : tl (lowercase s) = lowercase (tl s).
Proof. destruct s; reflexivity. Qed.

Lemma empty_lowercase (s : str) : empty (lowercase s) = empty s.
Proof. destruct s; reflexivity. Qed.

Lemma is_restricted_name_lowercase (s : str) :
  rfc6838.is_restricted_name (lowercase s) = rfc6838.is_restricted_name s.
Proof.
  unfold rfc6838.is_restricted_name, lowercase.
  induction s as [|a r IH]; [reflexivity|]. cbn [map forallb].
  now rewrite to_lowercase_alphanumeric, to_lowercase_restricted, <- IH.
Qed.

Lemma is_modified_restricted_name_lowercase (s : str) :
  rfc6838.is_modified_restricted_name (lowercase s)
  = rfc6838.is_modified_restricted_name s.
Proof.
  unfold rfc6838.is_modified_restricted_name, lowercase.
  induction s as [|a r IH]; [reflexivity|]. cbn [map forallb].
  now rewrite to_lowercase_alphanumeric, to_lowercase_modified_restricted, <- IH.
Qed.

(** The constructors do not tell a string from its lowercase form. *)
Lemma type_ctor_lowercase (s : str) :
  rfc6838.type.ctor (lowercase s) = rfc6838.type.ctor s.
Proof.
  unfold rfc6838.type.ctor.
  now rewrite empty_lowercase, lowercase_length, front_lowercase,
    to_lowercase_alphanumeric, is_restricted_name_lowercase, lowercase_idempotent.
Qed.

Lemma subtype_ctor_lowercase (s : str) :
  rfc6838.subtype.ctor (lowercase s) = rfc6838.subtype.ctor s.
Proof.
  unfold rfc6838.subtype.ctor.
  now rewrite empty_lowercase, lowercase_length, front_lowercase,
    to_lowercase_alphanumeric, is_restricted_name_lowercase, lowercase_idempotent.
Qed.

Lemma tree_ctor_lowercase (s : str) :
  rfc6838.tree.ctor (lowercase s) = rfc6838.tree.ctor s.
Proof.
  unfold rfc6838.tree.ctor.
  rewrite empty_lowercase, lowercase_length, front_lowercase, back_lowercase,
    to_lowercase_alphanumeric, removelast_lowercase,
    is_modified_restricted_name_lowercase, lowercase_idempotent.
  rewrite (proj1 (proj2 (to_lowercase_delimiter (back s)))).
  destruct s; reflexivity.
Qed.

Lemma suffix_ctor_lowercase (s : str) :
  rfc6838.suffix.ctor (lowercase s) = rfc6838.suffix.ctor s.
Proof.
  unfold rfc6838.suffix.ctor.
  rewrite lowercase_length, tl_lowercase, !front_lowercase,
    to_lowercase_alphanumeric, is_modified_restricted_name_lowercase,
    lowercase_idempotent.
  now rewrite (proj1 (proj2 (proj2 (to_lowercase_delimiter (front s))))).
Qed.

(** The delimiters are found where they were. *)
Lemma find_lowercase (d : ascii) (s : str) :
  (forall c, Ascii.eqb (ascii.to_lowercase c) d = Ascii.eqb c d) ->
  find d (lowercase s) = find d s.
Proof.
  intros D. induction s as [|a r IH]; [reflexivity|]. simpl.
  now rewrite D, IH.
Qed.

Lemma find_last_lowercase (d : ascii) (s : str) :
  (forall c, Ascii.eqb (ascii.to_lowercase c) d = Ascii.eqb c d) ->
  find_last d (lowercase s) = find_last d s.
Proof.
  intros D. unfold find_last, lowercase.
  rewrite <- map_rev. fold (lowercase (rev s)).
  now rewrite find_lowercase, length_map by exact D.
Qed.

Lemma parser_type_lowercase (input : str) :
  rfc6838.media_type.parser_type (lowercase input)
  = map_result lowercase2 (rfc6838.media_type.parser_type input).
Proof.
  unfold rfc6838.media_type.parser_type.
  rewrite find_lowercase by (intros c; apply to_lowercase_delimiter).
  rewrite lowercase_length.
  destruct (find "/" input =? length input); [reflexivity|].
  unfold lowercase. now rewrite firstn_map, skipn_map.
Qed.

Lemma parser_tree_lowercase (input : str) :
  rfc6838.media_type.parser_tree (lowercase input)
  = map_result lowercase2 (rfc6838.media_type.parser_tree input).
Proof.
  unfold rfc6838.media_type.parser_tree.
  rewrite find_lowercase by (intros c; apply to_lowercase_delimiter).
  rewrite lowercase_length.
  destruct (find "." input =? 0); [reflexivity|].
  destruct (find "." input =? length input); [reflexivity|].
  unfold lowercase. now rewrite firstn_map, skipn_map.
Qed.

Lemma parser_subtype_lowercase (input : str) :
  rfc6838.media_type.parser_subtype (lowercase input)
  = lowercase2 (rfc6838.media_type.parser_subtype input).
Proof.
  unfold rfc6838.media_type.parser_subtype.
  rewrite find_last_lowercase by (intros c; apply to_lowercase_delimiter).
  unfold lowercase. now rewrite firstn_map, skipn_map.
Qed.

Lemma parser_suffix_lowercase (input : str) :
  rfc6838.media_type.parser_suffix (lowercase input)
  = rfc6838.media_type.parser_suffix input.
Proof.
  unfold rfc6838.media_type.parser_suffix.
  now rewrite empty_lowercase, suffix_ctor_lowercase.
Qed.

Lemma parser_lowercase (input : str) :
  rfc6838.media_type.parser (lowercase input) = rfc6838.media_type.parser input.
Proof.
  unfold rfc6838.media_type.parser.
  rewrite find_lowercase by (intros c; apply to_lowercase_delimiter).
  replace (firstn (find ";" input) (lowercase input))
    with (lowercase (firstn (find ";" input) input))
    by (unfold lowercase; now rewrite firstn_map).
  rewrite parser_type_lowercase.
  destruct (rfc6838.media_type.parser_type _) as [[type_ r1]|]; [|reflexivity].
  cbn [map_result bind lowercase2 fst snd].
  rewrite parser_tree_lowercase.
  destruct (rfc6838.media_type.parser_tree r1) as [[tree_ r2]|]; [|reflexivity].
  cbn [map_result bind lowercase2 fst snd].
  rewrite parser_subtype_lowercase.
  destruct (rfc6838.media_type.parser_subtype r2) as [subtype_ r3].
  cbn [lowercase2 fst snd].
  now rewrite parser_suffix_lowercase, type_ctor_lowercase, tree_ctor_lowercase,
    subtype_ctor_lowercase.
Qed.

Lemma str_eqb_refl (s : str) : str_eqb s s = true.
Proof. unfold str_eqb. destruct (list_eq_dec ascii_dec s s); congruence. Qed.

Lemma media_type_eqb_refl (m : rfc6838.media_type.t) :
  rfc6838.media_type.eqb m m = true.
Proof.
  unfold rfc6838.media_type.eqb, rfc6838.type.eqb, rfc6838.tree.eqb,
    rfc6838.subtype.eqb, rfc6838.suffix.eqb.
  rewrite !str_eqb_refl. destruct (rfc6838.media_type.suffix m); simpl; auto.
  apply str_eqb_refl.
Qed.

(** C7.  A case variant of an input is constructed like the input: each
    of the four core constructors, and the parser of a whole media type,
    returns for it the very result it returns for the input, hence an equal
    value whenever the input is valid, and [operator==] holds between the
    two.  ["TEXT/PLAIN"] and ["text/plain"] construct equal media types. *)
Theorem case_insensitive_construction (s s' : str) :
  case_variant s s' ->
  (rfc6838.type.ctor s' = rfc6838.type.ctor s
   /\ rfc6838.tree.ctor s' = rfc6838.tree.ctor s
   /\ rfc6838.subtype.ctor s' = rfc6838.subtype.ctor s
   /\ rfc6838.suffix.ctor s' = rfc6838.suffix.ctor s
   /\ rfc6838.media_type.ctor s' = rfc6838.media_type.ctor s)
  /\ (forall v v', rfc6838.type.ctor s = Ok v -> rfc6838.type.ctor s' = Ok v' ->
                   v = v' /\ rfc6838.type.eqb v v' = true)
  /\ (forall v v', rfc6838.tree.ctor s = Ok v -> rfc6838.tree.ctor s' = Ok v' ->
                   v = v' /\ rfc6838.tree.eqb v v' = true)
  /\ (forall v v', rfc6838.subtype.ctor s = Ok v -> rfc6838.subtype.ctor s' = Ok v' ->
                   v = v' /\ rfc6838.subtype.eqb v v' = true)
  /\ (forall v v', rfc6838.suffix.ctor s = Ok v -> rfc6838.suffix.ctor s' = Ok v' ->
                   v = v' /\ rfc6838.suffix.eqb v v' = true)
  /\ (exists m, rfc6838.media_type.ctor (lit "TEXT/PLAIN") = Ok m
                /\ rfc6838.media_type.ctor (lit "text/plain") = Ok m
                /\ rfc6838.media_type.eqb m m = true).
Proof.
  intros V. apply case_variant_lowercase in V.
  assert (E : rfc6838.type.ctor s' = rfc6838.type.ctor s
              /\ rfc6838.tree.ctor s' = rfc6838.tree.ctor s
              /\ rfc6838.subtype.ctor s' = rfc6838.subtype.ctor s
              /\ rfc6838.suffix.ctor s' = rfc6838.suffix.ctor s
              /\ rfc6838.media_type.ctor s' = rfc6838.media_type.ctor s).
  { unfold rfc6838.media_type.ctor.
    rewrite <- (type_ctor_lowercase s'), <- (tree_ctor_lowercase s'),
      <- (subtype_ctor_lowercase s'), <- (suffix_ctor_lowercase s'),
      <- (parser_lowercase s'), V.
    now rewrite type_ctor_lowercase, tree_ctor_lowercase, subtype_ctor_lowercase,
      suffix_ctor_lowercase, parser_lowercase. }
  destruct E as (E1 & E2 & E3 & E4 & E5).
  split; [repeat split; assumption|].
  repeat split.
  all: try (rewrite ?E1, ?E2, ?E3, ?E4 in *; congruence).
  - assert (v = v') as <- by congruence. apply str_eqb_refl.
  - assert (v = v') as <- by congruence. apply str_eqb_refl.
  - assert (v = v') as <- by congruence. apply str_eqb_refl.
  - assert (v = v') as <- by congruence. apply str_eqb_refl.
  - eexists. split; [reflexivity|]. split; reflexivity.
Qed.

Lemma case_insensitive_construction_witness :
  case_variant (lit "vnd.api") (lit "VND.Api")
  /\ rfc6838.subtype.ctor (lit "VND.Api") = rfc6838.subtype.ctor (lit "vnd.api")
  /\ rfc6838.media_type.ctor (lit "VND.Api") = rfc6838.media_type.ctor (lit "vnd.api").
Proof.
  assert (V : case_variant (lit "vnd.api") (lit "VND.Api")).
  { repeat constructor; (now left) || (right; right; reflexivity). }
  split; [exact V|].
  destruct (case_insensitive_construction (lit "vnd.api") (lit "VND.Api") V)
    as ((_ & _ & E3 & _ & E5) & _).
  split; [exact E3 | exact E5].
Defined.

(** ** Removing the suffix *)

(** C8.  Both [without_suffix] overloads return the media type built from
    the type, tree and subtype of their object with no suffix: these three
    members are unchanged, the suffix is absent, and the canonical string of
    the result is the one of the object without its suffix part. *)
Theorem without_suffix_clears_only_suffix (m : rfc6838.media_type.t) :
  let direct :=
    rfc6838.media_type.mk (rfc6838.media_type.type m) (rfc6838.media_type.tree m)
      (rfc6838.media_type.subtype m) None in
  rfc6838.media_type.without_suffix m = direct
  /\ rfc6838.media_type.without_suffix_rvalue m = direct
  /\ rfc6838.media_type.eqb (rfc6838.media_type.without_suffix m) direct = true
  /\ rfc6838.media_type.eqb (rfc6838.media_type.without_suffix_rvalue m) direct = true
  /\ rfc6838.media_type.type (rfc6838.media_type.without_suffix m)
     = rfc6838.media_type.type m
  /\ rfc6838.media_type.tree (rfc6838.media_type.without_suffix m)
     = rfc6838.media_type.tree m
  /\ rfc6838.media_type.subtype (rfc6838.media_type.without_suffix m)
     = rfc6838.media_type.subtype m
  /\ rfc6838.media_type.suffix (rfc6838.media_type.without_suffix m) = None
  /\ rfc6838.media_type.string (rfc6838.media_type.without_suffix m)
     = rfc6838.type.string (rfc6838.media_type.type m) ++ lit "/"
         ++ rfc6838.tree.string (rfc6838.media_type.tree m)
         ++ rfc6838.subtype.string (rfc6838.media_type.subtype m)
  /\ rfc6838.media_type.string m
     = rfc6838.media_type.string (rfc6838.media_type.without_suffix m)
         ++ suffix_text (rfc6838.media_type.suffix m).
Proof.
  intros direct. subst direct.
  repeat split; try reflexivity.
  - apply media_type_eqb_refl.
  - apply media_type_eqb_refl.
  - unfold rfc6838.media_type.string. simpl. now rewrite !app_nil_r.
  - unfold rfc6838.media_type.string, suffix_text. simpl.
    rewrite app_nil_r, <- !app_assoc. simpl. now rewrite <- !app_assoc.
Qed.

(** ** Equality of parameter values *)

Lemma str_eqb_eq (a b : str) : str_eqb a b = true <-> a = b.
Proof.
  unfold str_eqb. destruct (list_eq_dec ascii_dec a b); split; congruence.
Qed.

Lemma removelast_snoc (a : str) (c : ascii) : removelast (a ++ [c]) = a.
Proof. apply removelast_last. Qed.

Lemma back_snoc (a : str) (c : ascii) : back (a ++ [c]) = c.
Proof. apply last_last. Qed.

(** The two forms of a parameter value the constructor accepts, and the
    logical value of each. *)
Lemma parameter_value_forms (s : str) (v : rfc6838.parameter_value.t) :
  rfc6838.parameter_value.ctor s = Ok v ->
  rfc6838.parameter_value.string v = s
  /\ ((exists inner, s = dquote :: inner ++ [dquote]
                     /\ inner <> [] /\ ~ In dquote inner
                     /\ rfc6838.parameter_value.value_view v = inner)
      \/ (front s <> dquote /\ s <> [] /\ rfc6838.is_restricted_name s = true
          /\ rfc6838.parameter_value.value_view v = s)).
Proof.
  unfold rfc6838.parameter_value.ctor, rfc6838.parameter_value.value_view,
    rfc6838.parameter_value.inner_string.
  cbn [rfc6838.parameter_value.backend].
  intros H.
  destruct (empty s || (127 <? length s)) eqn:E0; [discriminate|].
  apply orb_false_iff in E0 as [E0 _].
  destruct (Ascii.eqb_spec (front s) dquote) as [Q|Q].
  - destruct ((length s =? 1) || negb (Ascii.eqb (back s) dquote)) eqn:E1;
      [discriminate|].
    apply orb_false_iff in E1 as [E1 E2]. apply negb_false_iff in E2.
    apply Ascii.eqb_eq in E2.
    destruct (length s =? 2) eqn:E3; [discriminate|].
    destruct (contains (removelast (tl s)) dquote) eqn:E4; [discriminate|].
    injection H as <-. cbn [rfc6838.parameter_value.string rfc6838.parameter_value.backend].
    split; [reflexivity|]. left.
    destruct s as [|c r]; [discriminate|]. simpl in Q. subst c.
    destruct (exists_last (l := r)) as (inner & d & ->).
    { intros ->. discriminate E1. }
    change (dquote :: inner ++ [d]) with ((dquote :: inner) ++ [d]) in E2.
    rewrite back_snoc in E2. subst d.
    exists inner. cbn [tl] in *. rewrite removelast_snoc in *.
    rewrite Ascii.eqb_refl.
    repeat split.
    + intros ->. discriminate E3.
    + intros I. unfold contains in E4.
      assert (existsb (Ascii.eqb dquote) inner = true) as F; [|congruence].
      apply existsb_exists. exists dquote. split; [exact I|apply Ascii.eqb_refl].
  - destruct (rfc6838.is_restricted_name s) eqn:E1; [|discriminate].
    injection H as <-. cbn [rfc6838.parameter_value.string rfc6838.parameter_value.backend].
    split; [reflexivity|]. right.
    destruct (Ascii.eqb_spec (front s) dquote); [contradiction|].
    repeat split; try assumption.
    intros ->. discriminate E0.
Qed.

(** C9.  For two parameter values that were constructed, [operator==]
    holds exactly when their unquoted views are the same string, the view
    being the content between the quotes for the quoted form and the whole
    string for the bare form; the bare [foo] and the quoted [foo] are
    equal. *)
Theorem parameter_value_equality (a b : str) (x y : rfc6838.parameter_value.t) :
  rfc6838.parameter_value.ctor a = Ok x ->
  rfc6838.parameter_value.ctor b = Ok y ->
  (rfc6838.parameter_value.eqb x y = true
   <-> rfc6838.parameter_value.value_view x = rfc6838.parameter_value.value_view y)
  /\ ((exists inner, a = dquote :: inner ++ [dquote]
                     /\ rfc6838.parameter_value.value_view x = inner)
      \/ (front a <> dquote /\ rfc6838.parameter_value.value_view x = a))
  /\ ((exists inner, b = dquote :: inner ++ [dquote]
                     /\ rfc6838.parameter_value.value_view y = inner)
      \/ (front b <> dquote /\ rfc6838.parameter_value.value_view y = b))
  /\ (exists p q,
         rfc6838.parameter_value.ctor (lit "foo") = Ok p
         /\ rfc6838.parameter_value.ctor (dquote :: lit "foo" ++ [dquote]) = Ok q
         /\ rfc6838.parameter_value.string p <> rfc6838.parameter_value.string q
         /\ rfc6838.parameter_value.eqb p q = true).
Proof.
  intros Ha Hb.
  apply parameter_value_forms in Ha as [_ Fa].
  apply parameter_value_forms in Hb as [_ Fb].
  split; [apply str_eqb_eq|].
  split.
  { destruct Fa as [(i & E & _ & _ & V)|(Q & _ & _ & V)];
      [left; now exists i | right; now split]. }
  split.
  { destruct Fb as [(i & E & _ & _ & V)|(Q & _ & _ & V)];
      [left; now exists i | right; now split]. }
  eexists. eexists. split; [reflexivity|]. split; [reflexivity|].
  split; [discriminate|reflexivity].
Qed.

Lemma parameter_value_equality_witness :
  rfc6838.parameter_value.ctor (lit "foo")
    = Ok (rfc6838.parameter_value.mk (lit "foo"))
  /\ rfc6838.parameter_value.ctor (dquote :: lit "foo" ++ [dquote])
     = Ok (rfc6838.parameter_value.mk (dquote :: lit "foo" ++ [dquote]))
  /\ (rfc6838.parameter_value.eqb (rfc6838.parameter_value.mk (lit "foo"))
        (rfc6838.parameter_value.mk (dquote :: lit "foo" ++ [dquote])) = true
      <-> rfc6838.parameter_value.value_view (rfc6838.parameter_value.mk (lit "foo"))
          = rfc6838.parameter_value.value_view
              (rfc6838.parameter_value.mk (dquote :: lit "foo" ++ [dquote]))).
Proof.
  split; [reflexivity|]. split; [reflexivity|].
  exact (proj1 (parameter_value_equality (lit "foo") (dquote :: lit "foo" ++ [dquote])
                  _ _ eq_refl eq_refl)).
Defined.

(** * Further properties of the code *)

(** ** ascii.hpp *)

(** X1.  Converting a letter to the other case and back returns the letter, and
    the conversions leave every other character alone. *)
Theorem case_conversion_round_trip (c : ascii) :
  (ascii.is_alphabetic_uppercase c = true ->
   ascii.is_alphabetic_lowercase (ascii.to_lowercase c) = true
   /\ ascii.to_uppercase (ascii.to_lowercase c) = c)
  /\ (ascii.is_alphabetic_lowercase c = true ->
      ascii.is_alphabetic_uppercase (ascii.to_uppercase c) = true
      /\ ascii.to_lowercase (ascii.to_uppercase c) = c)
  /\ (ascii.is_alphabetic c = false ->
      ascii.to_lowercase c = c /\ ascii.to_uppercase c = c)
  /\ ascii.is_alphabetic_uppercase (ascii.to_lowercase c) = false
  /\ ascii.is_alphabetic_lowercase (ascii.to_uppercase c) = false.
Proof.
  each_char c; repeat split; intros; try reflexivity; discriminate.
Qed.

Lemma case_conversion_round_trip_witness :
  ascii.is_alphabetic_uppercase "Q" = true
  /\ ascii.is_alphabetic_lowercase "q" = true
  /\ ascii.is_alphabetic "/" = false
  /\ ascii.to_uppercase (ascii.to_lowercase "Q") = "Q"
  /\ ascii.to_lowercase (ascii.to_uppercase "q") = "q"
  /\ ascii.to_lowercase "/" = "/".
Proof.
  split; [reflexivity|]. split; [reflexivity|]. split; [reflexivity|].
  split; [exact (proj2 (proj1 (case_conversion_round_trip "Q") eq_refl))|].
  split; [exact (proj2 (proj1 (proj2 (case_conversion_round_trip "q")) eq_refl))|].
  exact (proj1 (proj1 (proj2 (proj2 (case_conversion_round_trip "/"))) eq_refl)).
Defined.

(** X2.  The classes of [ascii.hpp] fit together: a character below 128 is
    either a control character or printable and never both, a printable
    character is the space or graphical, a graphical character is either
    alphanumeric or punctuation and never both, and a character from 128 on
    belongs to no class. *)
Theorem character_classes (c : ascii) :
  (ascii.is_control c || ascii.is_printable c = (ascii.code c <? 128))
  /\ ascii.is_control c && ascii.is_printable c = false
  /\ ascii.is_printable c = Ascii.eqb c " " || ascii.is_graphical c
  /\ ascii.is_graphical c = ascii.is_alphanumeric c || ascii.is_punctuation c
  /\ ascii.is_alphanumeric c && ascii.is_punctuation c = false
  /\ ascii.is_alphanumeric c
     = ascii.is_alphanumeric_uppercase c || ascii.is_alphanumeric_lowercase c
  /\ ascii.is_alphanumeric_uppercase c && ascii.is_alphanumeric_lowercase c
     = ascii.is_digit c
  /\ ascii.is_hexadecimal c && negb (ascii.is_alphanumeric c) = false
  /\ ascii.is_digit c && negb (ascii.is_hexadecimal c) = false
  /\ ascii.is_blank c && negb (ascii.is_space c) = false
  /\ ascii.is_space c && ascii.is_graphical c = false.
Proof. each_char c; repeat split; reflexivity. Qed.

(** ** What the constructors accept and what they store *)

Lemma restricted_char_lowercase (c : ascii) :
  restricted_char (ascii.to_lowercase c) = restricted_char c.
Proof.
  unfold restricted_char.
  now rewrite to_lowercase_alphanumeric, to_lowercase_restricted.
Qed.

(** No restricted name character is a delimiter of the parser other than
    ['.'] and ['+'], nor a space or a quote. *)
Lemma restricted_char_plain (c : ascii) :
  restricted_char c = true ->
  c <> "/" /\ c <> ";" /\ c <> " " /\ c <> dquote.
Proof. intros H. repeat split; intros ->; discriminate H. Qed.

Lemma modified_restricted_char (c : ascii) :
  ascii.is_alphanumeric c || contains rfc6838.modified_restricted_list c = true ->
  restricted_char c = true /\ c <> "." /\ c <> "+".
Proof.
  intros H. split; [|split; intros ->; discriminate H].
  revert H. each_char c; intros H; try reflexivity; discriminate H.
Qed.

Lemma is_restricted_name_forall (s : str) :
  rfc6838.is_restricted_name s = true <-> Forall (fun c => restricted_char c = true) s.
Proof.
  unfold rfc6838.is_restricted_name. rewrite forallb_forall, Forall_forall.
  reflexivity.
Qed.

Lemma is_restricted_name_absent (s : str) :
  rfc6838.is_restricted_name s = true -> ~ In "/" s /\ ~ In ";" s.
Proof.
  intros H. apply is_restricted_name_forall in H. rewrite Forall_forall in H.
  split; intros I; apply H in I; discriminate I.
Qed.

Lemma is_modified_restricted_name_absent (s : str) :
  rfc6838.is_modified_restricted_name s = true ->
  rfc6838.is_restricted_name s = true /\ ~ In "." s /\ ~ In "+" s.
Proof.
  unfold rfc6838.is_modified_restricted_name. intros H.
  rewrite forallb_forall in H. split; [|split].
  - apply is_restricted_name_forall, Forall_forall. intros c I.
    now apply modified_restricted_char, H.
  - intros I. apply H in I. discriminate I.
  - intros I. apply H in I. discriminate I.
Qed.

Lemma is_restricted_name_app (a b : str) :
  rfc6838.is_restricted_name (a ++ b)
  = rfc6838.is_restricted_name a && rfc6838.is_restricted_name b.
Proof. apply forallb_app. Qed.

Lemma to_lowercase_not_uppercase (c : ascii) :
  ascii.is_alphabetic_uppercase (ascii.to_lowercase c) = false.
Proof. each_char c; reflexivity. Qed.

Lemma lowercase_no_uppercase (s : str) :
  Forall (fun c => ascii.is_alphabetic_uppercase c = false) (lowercase s).
Proof.
  apply Forall_forall. intros c I. apply in_map_iff in I as (d & <- & _).
  apply to_lowercase_not_uppercase.
Qed.

(** What the input of a successful constructor looks like. *)
Lemma type_ctor_accepts (s : str) (v : rfc6838.type.t) :
  rfc6838.type.ctor s = Ok v ->
  v = rfc6838.type.mk (lowercase s)
  /\ 1 <= length s <= 127
  /\ ascii.is_alphanumeric (front s) = true
  /\ rfc6838.is_restricted_name s = true.
Proof.
  unfold rfc6838.type.ctor. rewrite empty_length. intros H. case_ifs H.
  apply orb_false_iff in E as [La Lb].
  apply Nat.eqb_neq in La. apply Nat.ltb_ge in Lb.
  apply negb_false_iff in E0, E1. injection H as <-.
  repeat split; auto; lia.
Qed.

Lemma subtype_ctor_accepts (s : str) (v : rfc6838.subtype.t) :
  rfc6838.subtype.ctor s = Ok v ->
  v = rfc6838.subtype.mk (lowercase s)
  /\ 1 <= length s <= 127
  /\ ascii.is_alphanumeric (front s) = true
  /\ rfc6838.is_restricted_name s = true.
Proof.
  unfold rfc6838.subtype.ctor. rewrite empty_length. intros H. case_ifs H.
  apply orb_false_iff in E as [La Lb].
  apply Nat.eqb_neq in La. apply Nat.ltb_ge in Lb.
  apply negb_false_iff in E0, E1. injection H as <-.
  repeat split; auto; lia.
Qed.

Lemma parameter_name_ctor_accepts (s : str) (v : rfc6838.parameter_name.t) :
  rfc6838.parameter_name.ctor s = Ok v ->
  v = rfc6838.parameter_name.mk (lowercase s)
  /\ 1 <= length s <= 127
  /\ ascii.is_alphanumeric (front s) = true
  /\ rfc6838.is_restricted_name s = true.
Proof.
  unfold rfc6838.parameter_name.ctor. rewrite empty_length. intros H. case_ifs H.
  apply orb_false_iff in E as [La Lb].
  apply Nat.eqb_neq in La. apply Nat.ltb_ge in Lb.
  apply negb_false_iff in E0, E1. injection H as <-.
  repeat split; auto; lia.
Qed.

Lemma tree_ctor_accepts (s : str) (v : rfc6838.tree.t) :
  rfc6838.tree.ctor s = Ok v ->
  v = rfc6838.tree.mk (lowercase s)
  /\ (s = []
      \/ exists label, s = label ++ ["."]
                       /\ 1 <= length label <= 126
                       /\ ascii.is_alphanumeric (front label) = true
                       /\ rfc6838.is_modified_restricted_name label = true).
Proof.
  intros H. split.
  { apply tree_ctor_value in H. destruct v as [x]. simpl in H. now subst. }
  unfold rfc6838.tree.ctor in H. destruct s as [|c r]; [now left|right].
  cbn [empty] in H. case_ifs H.
  apply orb_false_iff in E as [La Lb].
  apply Nat.ltb_ge in La. apply Nat.ltb_ge in Lb.
  apply negb_false_iff in E0, E1, E2. apply Ascii.eqb_eq in E1.
  destruct (exists_last (l := c :: r)) as (label & d & L); [discriminate|].
  rewrite L in *. rewrite back_snoc in E1. subst d.
  rewrite removelast_snoc in E2. rewrite length_app in La, Lb. simpl in La, Lb.
  exists label. repeat split; auto; try lia.
  destruct label; [simpl in La; lia|exact E0].
Qed.

Lemma suffix_ctor_accepts (s : str) (v : rfc6838.suffix.t) :
  rfc6838.suffix.ctor s = Ok v ->
  v = rfc6838.suffix.mk (lowercase s)
  /\ exists rest, s = "+" :: rest
                  /\ 1 <= length rest <= 126
                  /\ ascii.is_alphanumeric (front rest) = true
                  /\ rfc6838.is_modified_restricted_name rest = true.
Proof.
  unfold rfc6838.suffix.ctor. intros H. case_ifs H.
  apply orb_false_iff in E as [La Lb].
  apply Nat.ltb_ge in La. apply Nat.ltb_ge in Lb.
  apply negb_false_iff in E0, E1, E2. apply Ascii.eqb_eq in E0.
  injection H as <-. split; [reflexivity|].
  destruct s as [|c rest]; [simpl in La; lia|]. simpl in E0. subst c.
  exists rest. simpl in La, Lb, E1, E2. repeat split; auto; lia.
Qed.

Lemma normal_name_lowercase (s : str) :
  1 <= length s <= 127 ->
  ascii.is_alphanumeric (front s) = true ->
  rfc6838.is_restricted_name s = true ->
  normal_name (lowercase s).
Proof.
  intros L A R. unfold normal_name.
  rewrite lowercase_length, front_lowercase, to_lowercase_alphanumeric,
    is_restricted_name_lowercase.
  repeat split; auto; try lia. apply lowercase_no_uppercase.
Qed.

(** X3.  The value a constructor of the top-level type, of the subtype or of a
    parameter name stores is the lowercase form of its input, it satisfies
    the rules of the class and holds no uppercase letter, and constructing
    again from it yields the same value. *)
Theorem name_constructors_normalize (s : str) :
  (forall v, rfc6838.type.ctor s = Ok v ->
             rfc6838.type.string v = lowercase s
             /\ normal_name (rfc6838.type.string v)
             /\ rfc6838.type.ctor (rfc6838.type.string v) = Ok v)
  /\ (forall v, rfc6838.subtype.ctor s = Ok v ->
                rfc6838.subtype.string v = lowercase s
                /\ normal_name (rfc6838.subtype.string v)
                /\ rfc6838.subtype.ctor (rfc6838.subtype.string v) = Ok v)
  /\ (forall v, rfc6838.parameter_name.ctor s = Ok v ->
                rfc6838.parameter_name.string v = lowercase s
                /\ normal_name (rfc6838.parameter_name.string v)
                /\ rfc6838.parameter_name.ctor (rfc6838.parameter_name.string v) = Ok v).
Proof.
  split; [|split]; intros v H.
  - pose proof (type_ctor_accepts s v H) as (-> & L & A & R).
    cbn [rfc6838.type.string rfc6838.type.value].
    split; [reflexivity|]. split; [now apply normal_name_lowercase|].
    now rewrite type_ctor_lowercase.
  - pose proof (subtype_ctor_accepts s v H) as (-> & L & A & R).
    cbn [rfc6838.subtype.string rfc6838.subtype.value].
    split; [reflexivity|]. split; [now apply normal_name_lowercase|].
    now rewrite subtype_ctor_lowercase.
  - pose proof (parameter_name_ctor_accepts s v H) as (-> & L & A & R).
    cbn [rfc6838.parameter_name.string rfc6838.parameter_name.value].
    split; [reflexivity|]. split; [now apply normal_name_lowercase|].
    unfold rfc6838.parameter_name.ctor in *.
    now rewrite empty_lowercase, lowercase_length, front_lowercase,
      to_lowercase_alphanumeric, is_restricted_name_lowercase, lowercase_idempotent.
Qed.

Lemma name_constructors_normalize_witness :
  rfc6838.type.ctor (lit "Text") = Ok (rfc6838.type.mk (lit "text"))
  /\ normal_name (lit "text")
  /\ rfc6838.type.ctor (lit "text") = Ok (rfc6838.type.mk (lit "text")).
Proof.
  split; [reflexivity|].
  destruct (proj1 (name_constructors_normalize (lit "Text")) _ eq_refl)
    as (_ & N & C).
  split; [exact N | exact C].
Defined.

(** X4.  The value the tree constructor stores is the lowercase form of its
    input; it is the standard tree exactly for the empty input, and
    otherwise a label of 1 to 126 characters followed by one ['.'], the
    label starting with an alphanumeric character and holding neither ['.']
    nor ['+'] nor an uppercase letter.  Constructing again from the stored
    value yields the same value. *)
Theorem tree_constructor_normalizes (s : str) (v : rfc6838.tree.t) :
  rfc6838.tree.ctor s = Ok v ->
  rfc6838.tree.string v = lowercase s
  /\ (rfc6838.tree.standard v = true <-> s = [])
  /\ (s <> [] ->
      exists label, rfc6838.tree.string v = label ++ ["."]
                    /\ 1 <= length label <= 126
                    /\ ascii.is_alphanumeric (front label) = true
                    /\ rfc6838.is_modified_restricted_name label = true
                    /\ ~ In "." label /\ ~ In "+" label
                    /\ Forall (fun c => ascii.is_alphabetic_uppercase c = false) label)
  /\ rfc6838.tree.ctor (rfc6838.tree.string v) = Ok v.
Proof.
  intros H. pose proof (tree_ctor_accepts s v H) as (-> & F).
  cbn [rfc6838.tree.string rfc6838.tree.value rfc6838.tree.standard].
  split; [reflexivity|]. split; [|split].
  - unfold rfc6838.tree.standard. destruct s; simpl; split; intros; congruence.
  - intros N. destruct F as [->|(label & -> & L & A & M)]; [congruence|].
    exists (lowercase label).
    rewrite lowercase_app, lowercase_length, front_lowercase,
      to_lowercase_alphanumeric, is_modified_restricted_name_lowercase.
    split; [reflexivity|]. repeat split; auto; try lia.
    + apply is_modified_restricted_name_absent.
      now rewrite is_modified_restricted_name_lowercase.
    + apply is_modified_restricted_name_absent.
      now rewrite is_modified_restricted_name_lowercase.
    + apply lowercase_no_uppercase.
  - now rewrite tree_ctor_lowercase.
Qed.

Lemma tree_constructor_normalizes_witness :
  rfc6838.tree.ctor (lit "VND.") = Ok (rfc6838.tree.mk (lit "vnd."))
  /\ rfc6838.tree.ctor (lit "vnd.") = Ok (rfc6838.tree.mk (lit "vnd.")).
Proof.
  split; [reflexivity|].
  exact (proj2 (proj2 (proj2 (tree_constructor_normalizes (lit "VND.") _ eq_refl)))).
Defined.

(** X5.  The value the suffix constructor stores is the lowercase form of its
    input: a ['+'] followed by 1 to 126 characters, the first of them
    alphanumeric, none of them a ['+'], a ['.'] or an uppercase letter.
    Constructing again from the stored value yields the same value. *)
Theorem suffix_constructor_normalizes (s : str) (v : rfc6838.suffix.t) :
  rfc6838.suffix.ctor s = Ok v ->
  rfc6838.suffix.string v = lowercase s
  /\ (exists rest, rfc6838.suffix.string v = "+" :: rest
                   /\ 1 <= length rest <= 126
                   /\ ascii.is_alphanumeric (front rest) = true
                   /\ rfc6838.is_modified_restricted_name rest = true
                   /\ ~ In "." rest /\ ~ In "+" rest
                   /\ Forall (fun c => ascii.is_alphabetic_uppercase c = false) rest)
  /\ rfc6838.suffix.ctor (rfc6838.suffix.string v) = Ok v.
Proof.
  intros H. pose proof (suffix_ctor_accepts s v H) as (-> & rest & -> & L & A & M).
  cbn [rfc6838.suffix.string rfc6838.suffix.value].
  split; [reflexivity|]. split.
  - exists (lowercase rest).
    rewrite lowercase_length, front_lowercase, to_lowercase_alphanumeric,
      is_modified_restricted_name_lowercase.
    split; [reflexivity|]. repeat split; auto; try lia.
    + apply is_modified_restricted_name_absent.
      now rewrite is_modified_restricted_name_lowercase.
    + apply is_modified_restricted_name_absent.
      now rewrite is_modified_restricted_name_lowercase.
    + apply lowercase_no_uppercase.
  - now rewrite suffix_ctor_lowercase.
Qed.

Lemma suffix_constructor_normalizes_witness :
  rfc6838.suffix.ctor (lit "+JSON") = Ok (rfc6838.suffix.mk (lit "+json"))
  /\ rfc6838.suffix.ctor (lit "+json") = Ok (rfc6838.suffix.mk (lit "+json")).
Proof.
  split; [reflexivity|].
  exact (proj2 (proj2 (suffix_constructor_normalizes (lit "+JSON") _ eq_refl))).
Defined.

(** X6.  A character that is neither alphanumeric nor one of
    [! # $ & - ^ _ . +], at any position, makes every component constructor
    throw. *)
Theorem disallowed_character_rejected (s : str) (c : ascii) :
  In c s -> restricted_char c = false ->
  succeeds (rfc6838.type.ctor s) = false
  /\ succeeds (rfc6838.tree.ctor s) = false
  /\ succeeds (rfc6838.subtype.ctor s) = false
  /\ succeeds (rfc6838.suffix.ctor s) = false
  /\ succeeds (rfc6838.parameter_name.ctor s) = false.
Proof.
  intros I R.
  assert (N : rfc6838.is_restricted_name s = true -> False).
  { intros H. apply is_restricted_name_forall in H. rewrite Forall_forall in H.
    apply H in I. congruence. }
  repeat split.
  - destruct (rfc6838.type.ctor s) as [v|] eqn:E; [|reflexivity].
    apply type_ctor_accepts in E as (_ & _ & _ & E). now apply N in E.
  - destruct (rfc6838.tree.ctor s) as [v|] eqn:E; [|reflexivity].
    apply tree_ctor_accepts in E as (_ & [->|(label & -> & _ & _ & M)]);
      [destruct I|].
    exfalso. apply N. rewrite is_restricted_name_app.
    apply is_modified_restricted_name_absent in M as (-> & _). reflexivity.
  - destruct (rfc6838.subtype.ctor s) as [v|] eqn:E; [|reflexivity].
    apply subtype_ctor_accepts in E as (_ & _ & _ & E). now apply N in E.
  - destruct (rfc6838.suffix.ctor s) as [v|] eqn:E; [|reflexivity].
    apply suffix_ctor_accepts in E as (_ & rest & -> & _ & _ & M).
    exfalso. apply N.
    change ("+" :: rest) with (["+"] ++ rest). rewrite is_restricted_name_app.
    apply is_modified_restricted_name_absent in M as (-> & _). reflexivity.
  - destruct (rfc6838.parameter_name.ctor s) as [v|] eqn:E; [|reflexivity].
    apply parameter_name_ctor_accepts in E as (_ & _ & _ & E). now apply N in E.
Qed.

Lemma disallowed_character_rejected_witness :
  In " " (lit "text plain") /\ restricted_char " " = false
  /\ succeeds (rfc6838.subtype.ctor (lit "text plain")) = false.
Proof.
  assert (I : In " " (lit "text plain")).
  { simpl. do 4 right. now left. }
  split; [exact I|]. split; [reflexivity|].
  exact (proj1 (proj2 (proj2 (disallowed_character_rejected
                                (lit "text plain") " " I eq_refl)))).
Defined.

(** ** The parser on whole inputs *)

Lemma before_parameters_absent (s : str) : ~ In ";" (before_parameters s).
Proof. apply find_prefix_absent. Qed.

Lemma before_parameters_app (s t : str) :
  ~ In ";" s -> before_parameters (s ++ ";" :: t) = s.
Proof.
  intros H. unfold before_parameters. rewrite find_app by exact H.
  apply firstn_app_exact.
Qed.

Lemma before_parameters_fixed (s : str) :
  ~ In ";" s -> before_parameters s = s.
Proof. apply truncate_no_parameters. Qed.

(** The parser only reads what precedes the first [';']. *)
Lemma parser_before_parameters (s : str) :
  rfc6838.media_type.parser (before_parameters s) = rfc6838.media_type.parser s.
Proof.
  unfold rfc6838.media_type.parser. fold (before_parameters s).
  fold (before_parameters (before_parameters s)).
  now rewrite (before_parameters_fixed _ (before_parameters_absent s)).
Qed.

Lemma parser_000_before_parameters (s : str) :
  part_000.parser (before_parameters s) = part_000.parser s.
Proof.
  unfold part_000.parser. fold (before_parameters s).
  fold (before_parameters (before_parameters s)).
  now rewrite (before_parameters_fixed _ (before_parameters_absent s)).
Qed.

Lemma parser_suffix_accepts (r : str) (o : option rfc6838.suffix.t) :
  rfc6838.media_type.parser_suffix r = Ok o ->
  (r = [] /\ o = None) \/ (exists x, o = Some x /\ rfc6838.suffix.ctor r = Ok x).
Proof.
  unfold rfc6838.media_type.parser_suffix. destruct r as [|c r]; cbn [empty].
  - intros H. left. split; congruence.
  - destruct (rfc6838.suffix.ctor (c :: r)) as [x|] eqn:E; cbn [bind];
      [|discriminate].
    intros H. right. exists x. split; congruence.
Qed.

(** The canonical string of a parsed value, parameters or not. *)
Lemma parser_string (s : str) (m : rfc6838.media_type.t) :
  rfc6838.media_type.parser s = Ok m ->
  rfc6838.media_type.string m = lowercase (before_parameters s).
Proof.
  intros H. apply parser_ok in H.
  destruct H as (type_ & r1 & tree_ & r2 & subtype_ & r3
                 & H1 & H2 & H3 & H4 & H5 & H6 & H7).
  fold (before_parameters s) in H1.
  apply parser_type_split in H1 as [-> _].
  apply parser_tree_split in H2 as ->.
  apply parser_subtype_split in H3 as ->.
  apply type_ctor_value in H5. apply tree_ctor_value in H6.
  apply subtype_ctor_value in H7. apply parser_suffix_value in H4.
  unfold rfc6838.media_type.string, rfc6838.type.string, rfc6838.tree.string,
    rfc6838.subtype.string, rfc6838.suffix.string.
  rewrite H5, H6, H7, H4. unfold lit, lowercase. simpl.
  rewrite map_app. simpl. now rewrite !map_app.
Qed.

Lemma media_type_eqb_eq (a b : rfc6838.media_type.t) :
  rfc6838.media_type.eqb a b = true <-> a = b.
Proof.
  destruct a as [[a1] [a2] [a3] a4], b as [[b1] [b2] [b3] b4].
  unfold rfc6838.media_type.eqb, rfc6838.type.eqb, rfc6838.tree.eqb,
    rfc6838.subtype.eqb, rfc6838.suffix.eqb. simpl.
  rewrite !andb_true_iff, !str_eqb_eq.
  destruct a4 as [[x]|], b4 as [[y]|]; simpl; rewrite ?str_eqb_eq;
    split; intros H; try (now intuition congruence).
  all: try (repeat split; congruence).
Qed.

(** X7.  Everything from the first [';'] on is ignored: an input and the same
    input followed by [';'] and anything are constructed alike, in both
    encodings. *)
Theorem parameters_ignored (s t : str) :
  ~ In ";" s ->
  rfc6838.media_type.ctor (s ++ ";" :: t) = rfc6838.media_type.ctor s
  /\ part_000.ctor (s ++ ";" :: t) = part_000.ctor s.
Proof.
  intros H. unfold rfc6838.media_type.ctor, part_000.ctor. split.
  - rewrite <- (parser_before_parameters (s ++ ";" :: t)),
      before_parameters_app by exact H. reflexivity.
  - rewrite <- (parser_000_before_parameters (s ++ ";" :: t)),
      before_parameters_app by exact H. reflexivity.
Qed.

Lemma parameters_ignored_witness :
  ~ In ";" (lit "text/html")
  /\ rfc6838.media_type.ctor (lit "text/html; charset=UTF-8")
     = rfc6838.media_type.ctor (lit "text/html").
Proof.
  assert (N : ~ In ";" (lit "text/html")).
  { simpl. intros H. repeat (destruct H as [H|H]; [discriminate H|]). exact H. }
  split; [exact N|].
  exact (proj1 (parameters_ignored (lit "text/html") (lit " charset=UTF-8") N)).
Defined.

(** X8.  The canonical string of a parsed media type is the lowercase form of
    what precedes the first [';'] of the input, and parsing that string
    again yields the same media type. *)
Theorem parsed_string_reparses (s : str) (m : rfc6838.media_type.t) :
  rfc6838.media_type.ctor s = Ok m ->
  rfc6838.media_type.string m = lowercase (before_parameters s)
  /\ rfc6838.media_type.ctor (rfc6838.media_type.string m) = Ok m.
Proof.
  unfold rfc6838.media_type.ctor. intros H.
  pose proof (parser_string s m H) as S. split; [exact S|].
  now rewrite S, parser_lowercase, parser_before_parameters.
Qed.

Lemma parsed_string_reparses_witness :
  exists m,
    rfc6838.media_type.ctor (lit "Application/VND.Api+JSON;v=1") = Ok m
    /\ rfc6838.media_type.string m = lit "application/vnd.api+json"
    /\ rfc6838.media_type.ctor (rfc6838.media_type.string m) = Ok m.
Proof.
  eexists. split; [reflexivity|].
  exact (parsed_string_reparses (lit "Application/VND.Api+JSON;v=1") _ eq_refl).
Defined.

(** X9.  Two parsed media types are equal, and [operator==] holds between
    them, exactly when the parts of their inputs before the first [';'] are
    equal up to the case of their letters. *)
Theorem parsed_equality (s s' : str) (m m' : rfc6838.media_type.t) :
  rfc6838.media_type.ctor s = Ok m ->
  rfc6838.media_type.ctor s' = Ok m' ->
  (rfc6838.media_type.eqb m m' = true
   <-> lowercase (before_parameters s) = lowercase (before_parameters s'))
  /\ (rfc6838.media_type.eqb m m' = true <-> m = m').
Proof.
  unfold rfc6838.media_type.ctor. intros H H'.
  split; [|apply media_type_eqb_eq]. rewrite media_type_eqb_eq. split.
  - intros <-. now rewrite <- (parser_string s m H), <- (parser_string s' m H').
  - intros E.
    rewrite <- parser_before_parameters, <- parser_lowercase in H, H'.
    rewrite E in H. congruence.
Qed.

Lemma parsed_equality_witness :
  exists m m',
    rfc6838.media_type.ctor (lit "Text/HTML;q=0.8") = Ok m
    /\ rfc6838.media_type.ctor (lit "text/html") = Ok m'
    /\ rfc6838.media_type.eqb m m' = true.
Proof.
  eexists. eexists. split; [reflexivity|]. split; [reflexivity|].
  apply (proj1 (parsed_equality (lit "Text/HTML;q=0.8") (lit "text/html") _ _
                  eq_refl eq_refl)).
  reflexivity.
Defined.

(** ** The inputs the parser accepts and the values it yields *)

Lemma in_lowercase (d : ascii) (s : str) :
  (forall c, Ascii.eqb (ascii.to_lowercase c) d = Ascii.eqb c d) ->
  In d (lowercase s) -> In d s.
Proof.
  intros D I. apply in_map_iff in I as (c & E & I).
  apply Ascii.eqb_eq in E. rewrite D in E. apply Ascii.eqb_eq in E. now subst.
Qed.

Lemma tree_accepted_restricted (tree_ : str) (v : rfc6838.tree.t) :
  rfc6838.tree.ctor tree_ = Ok v ->
  rfc6838.is_restricted_name tree_ = true /\ length tree_ <= 127.
Proof.
  intros H. apply tree_ctor_accepts in H as (_ & [->|(label & -> & L & _ & M)]).
  - split; [reflexivity|simpl; lia].
  - apply is_modified_restricted_name_absent in M as (M & _).
    rewrite is_restricted_name_app, M, length_app. simpl. split; [reflexivity|lia].
Qed.

Lemma suffix_accepted_restricted (r : str) (o : option rfc6838.suffix.t) :
  rfc6838.media_type.parser_suffix r = Ok o ->
  rfc6838.is_restricted_name r = true /\ length r <= 127.
Proof.
  intros H. apply parser_suffix_accepts in H as [[-> _]|(x & _ & H)].
  - split; [reflexivity|simpl; lia].
  - apply suffix_ctor_accepts in H as (_ & rest & -> & L & _ & M).
    apply is_modified_restricted_name_absent in M as (M & _).
    change ("+" :: rest) with (["+"] ++ rest).
    rewrite is_restricted_name_app, M, length_app. simpl. split; [reflexivity|lia].
Qed.

(** X10.  What an accepted input looks like before its first [';']: a
    non-empty restricted name of at most 127 characters, one ['/'], and a
    non-empty restricted name of at most 381 characters.  So it holds
    exactly one ['/'], and no space, quote or other character outside the
    restricted names. *)
Theorem accepted_input_shape (s : str) (m : rfc6838.media_type.t) :
  rfc6838.media_type.ctor s = Ok m ->
  exists a b,
    before_parameters s = a ++ "/" :: b
    /\ rfc6838.is_restricted_name a = true
    /\ rfc6838.is_restricted_name b = true
    /\ 1 <= length a <= 127
    /\ 1 <= length b <= 381
    /\ ~ In "/" a /\ ~ In "/" b
    /\ (forall c, In c (before_parameters s) -> c = "/" \/ restricted_char c = true).
Proof.
  unfold rfc6838.media_type.ctor. intros H. apply parser_ok in H.
  destruct H as (type_ & r1 & tree_ & r2 & subtype_ & r3
                 & H1 & H2 & H3 & H4 & H5 & H6 & H7).
  fold (before_parameters s) in H1.
  apply parser_type_split in H1 as [E1 N1].
  apply parser_tree_split in H2 as ->.
  apply parser_subtype_split in H3 as ->.
  apply type_ctor_accepts in H5 as (_ & L5 & _ & R5).
  apply tree_accepted_restricted in H6 as (R6 & L6).
  apply subtype_ctor_accepts in H7 as (_ & L7 & _ & R7).
  apply suffix_accepted_restricted in H4 as (R4 & L4).
  assert (R : rfc6838.is_restricted_name (tree_ ++ subtype_ ++ r3) = true).
  { now rewrite !is_restricted_name_app, R6, R7, R4. }
  exists type_, (tree_ ++ subtype_ ++ r3).
  split; [exact E1|]. split; [exact R5|]. split; [exact R|].
  split; [exact L5|]. split; [rewrite !length_app; lia|].
  split; [exact N1|]. split; [now apply is_restricted_name_absent|].
  intros c I. rewrite E1 in I. apply in_app_or in I as [I|[I|I]].
  - right. apply is_restricted_name_forall in R5. rewrite Forall_forall in R5. auto.
  - left. now symmetry.
  - right. apply is_restricted_name_forall in R. rewrite Forall_forall in R. auto.
Qed.

Lemma accepted_input_shape_witness :
  exists a b,
    before_parameters (lit "application/vnd.api+json;v=1") = a ++ "/" :: b
    /\ rfc6838.is_restricted_name a = true
    /\ rfc6838.is_restricted_name b = true.
Proof.
  destruct (accepted_input_shape (lit "application/vnd.api+json;v=1") _ eq_refl)
    as (a & b & E & Ra & Rb & _).
  exists a, b. split; [exact E|]. split; [exact Ra | exact Rb].
Defined.

Lemma parser_constructed (s : str) (m : rfc6838.media_type.t) :
  rfc6838.media_type.parser s = Ok m -> constructed m.
Proof.
  intros H. apply parser_ok in H.
  destruct H as (type_ & r1 & tree_ & r2 & subtype_ & r3
                 & H1 & H2 & H3 & H4 & H5 & H6 & H7).
  unfold constructed. split; [now exists type_|]. split; [now exists tree_|].
  split; [now exists subtype_|].
  apply parser_suffix_accepts in H4 as [[_ ->]|(x & -> & H4)]; [exact I|].
  now exists r3.
Qed.

Lemma parser_canonical (s : str) (m : rfc6838.media_type.t) :
  rfc6838.media_type.parser s = Ok m -> canonical m.
Proof.
  intros H. apply parser_ok in H.
  destruct H as (type_ & r1 & tree_ & r2 & subtype_ & r3
                 & H1 & H2 & H3 & H4 & H5 & H6 & H7).
  apply tree_ctor_value in H6. apply subtype_ctor_value in H7.
  unfold canonical, rfc6838.tree.standard, rfc6838.subtype.string.
  rewrite H6, H7, empty_lowercase. split.
  - intros T I. destruct tree_; [|discriminate T].
    apply in_lowercase in I; [|intros c; apply to_lowercase_delimiter].
    unfold rfc6838.media_type.parser_tree in H2.
    destruct (Nat.eqb_spec (find "." r1) 0) as [Z|Z]; [discriminate|].
    destruct (Nat.eqb_spec (find "." r1) (length r1)) as [F|F].
    + assert (r2 = r1) as -> by congruence.
      apply find_absent in F. apply F.
      apply parser_subtype_split in H3 as ->. apply in_or_app. now left.
    + destruct r1; [now simpl in Z|]. simpl in H2. discriminate H2.
  - intros N I. rewrite N in H4.
    apply in_lowercase in I; [|intros c; apply to_lowercase_delimiter].
    apply parser_suffix_accepts in H4 as [[-> _]|(x & A & _)]; [|discriminate A].
    destruct (parser_subtype_last_plus r2) as (st & rest & E & S & C).
    rewrite H3 in E. injection E as <- <-.
    destruct C as [(C & _)|(tail & A & _)]; [|discriminate A].
    apply C. rewrite S. apply in_or_app. now left.
Qed.

(** X11.  A parsed media type is made of constructed components and has the
    shape [canonical]: its subtype holds no ['.'] when its tree is the
    standard tree and no ['+'] when it has no suffix. *)
Theorem parsed_values_canonical (s : str) (m : rfc6838.media_type.t) :
  rfc6838.media_type.ctor s = Ok m -> constructed m /\ canonical m.
Proof.
  intros H. split; [exact (parser_constructed s m H) | exact (parser_canonical s m H)].
Qed.

Lemma parsed_values_canonical_witness :
  exists m, rfc6838.media_type.ctor (lit "application/x+y+json") = Ok m
            /\ constructed m /\ canonical m.
Proof.
  eexists. split; [reflexivity|].
  exact (parsed_values_canonical (lit "application/x+y+json") _ eq_refl).
Defined.

(** ** Parsing the canonical string of a value built from components *)

Lemma type_stored (a : str) (v : rfc6838.type.t) :
  rfc6838.type.ctor a = Ok v ->
  rfc6838.type.ctor (rfc6838.type.value v) = Ok v
  /\ rfc6838.is_restricted_name (rfc6838.type.value v) = true.
Proof.
  intros H. pose proof (type_ctor_accepts a v H) as (-> & _ & _ & R). simpl.
  now rewrite type_ctor_lowercase, is_restricted_name_lowercase.
Qed.

Lemma subtype_stored (a : str) (v : rfc6838.subtype.t) :
  rfc6838.subtype.ctor a = Ok v ->
  rfc6838.subtype.ctor (rfc6838.subtype.value v) = Ok v
  /\ rfc6838.is_restricted_name (rfc6838.subtype.value v) = true
  /\ rfc6838.subtype.value v <> [].
Proof.
  intros H. pose proof (subtype_ctor_accepts a v H) as (-> & L & _ & R). simpl.
  rewrite subtype_ctor_lowercase, is_restricted_name_lowercase.
  repeat split; auto. destruct a; [simpl in L; lia|discriminate].
Qed.

Lemma tree_stored (a : str) (v : rfc6838.tree.t) :
  rfc6838.tree.ctor a = Ok v ->
  rfc6838.tree.ctor (rfc6838.tree.value v) = Ok v
  /\ (rfc6838.tree.value v = []
      \/ exists label, rfc6838.tree.value v = label ++ ["."]
                       /\ label <> []
                       /\ rfc6838.is_modified_restricted_name label = true).
Proof.
  intros H. pose proof (tree_ctor_accepts a v H) as (-> & F). simpl.
  rewrite tree_ctor_lowercase. split; [exact H|].
  destruct F as [->|(label & -> & L & _ & M)]; [now left|right].
  exists (lowercase label). rewrite lowercase_app, is_modified_restricted_name_lowercase.
  repeat split; auto. destruct label; [simpl in L; lia|discriminate].
Qed.

Lemma suffix_stored (a : str) (v : rfc6838.suffix.t) :
  rfc6838.suffix.ctor a = Ok v ->
  rfc6838.suffix.ctor (rfc6838.suffix.value v) = Ok v
  /\ exists rest, rfc6838.suffix.value v = "+" :: rest
                  /\ rfc6838.is_modified_restricted_name rest = true.
Proof.
  intros H. pose proof (suffix_ctor_accepts a v H) as (-> & rest & -> & _ & _ & M).
  cbn [rfc6838.suffix.value]. rewrite suffix_ctor_lowercase. split; [exact H|].
  exists (lowercase rest). rewrite is_modified_restricted_name_lowercase.
  split; [reflexivity | exact M].
Qed.

Lemma parser_type_first_slash (a b : str) :
  ~ In "/" a -> rfc6838.media_type.parser_type (a ++ "/" :: b) = Ok (a, b).
Proof.
  intros H. unfold rfc6838.media_type.parser_type. rewrite find_app by exact H.
  destruct (Nat.eqb_spec (length a) (length (a ++ "/" :: b))) as [F|F].
  { rewrite length_app in F. simpl in F. lia. }
  replace (S (length a)) with (length (a ++ ["/"]))
    by (rewrite length_app; simpl; lia).
  replace (a ++ "/" :: b) with ((a ++ ["/"]) ++ b) at 2
    by (rewrite <- app_assoc; reflexivity).
  now rewrite firstn_app_exact, skipn_app_exact.
Qed.

Lemma constructed_reparses (m : rfc6838.media_type.t) :
  constructed m -> canonical m ->
  rfc6838.media_type.parser (rfc6838.media_type.string m) = Ok m.
Proof.
  destruct m as [ty tr st sf]. unfold constructed, canonical. simpl.
  intros ((a & Ha) & (b & Hb) & (c & Hc) & Hd) (C1 & C2).
  apply type_stored in Ha as (Ta & Ra).
  apply tree_stored in Hb as (Tb & Fb).
  apply subtype_stored in Hc as (Tc & Rc & Nc).
  unfold rfc6838.tree.standard, rfc6838.subtype.string in *.
  set (T := rfc6838.type.value ty) in *.
  set (TR := rfc6838.tree.value tr) in *.
  set (ST := rfc6838.subtype.value st) in *.
  set (SF := match sf with Some x => rfc6838.suffix.string x | None => [] end).
  assert (Fs : (sf = None /\ SF = [])
               \/ (exists x rest, sf = Some x /\ SF = "+" :: rest
                                  /\ rfc6838.is_modified_restricted_name rest = true
                                  /\ rfc6838.suffix.ctor SF = Ok x)).
  { subst SF. destruct sf as [x|]; [right|now left].
    destruct Hd as (d & Hd). apply suffix_stored in Hd as (Td & rest & E & M).
    exists x, rest. unfold rfc6838.suffix.string. now rewrite E in *. }
  assert (Rs : rfc6838.is_restricted_name SF = true /\ ~ In "." SF).
  { destruct Fs as [[_ ->]|(x & rest & _ & -> & M & _)]; [now split|].
    apply is_modified_restricted_name_absent in M as (M & D & _).
    change ("+" :: rest) with (["+"] ++ rest). rewrite is_restricted_name_app, M.
    split; [reflexivity|]. intros [I|I]; [discriminate I|auto]. }
  destruct Rs as (Rs & Ds).
  assert (Rt : rfc6838.is_restricted_name TR = true).
  { destruct Fb as [->|(label & -> & _ & M)]; [reflexivity|].
    apply is_modified_restricted_name_absent in M as (M & _).
    now rewrite is_restricted_name_app, M. }
  unfold rfc6838.media_type.string, rfc6838.type.string, rfc6838.tree.string,
    rfc6838.subtype.string. cbn [rfc6838.media_type.type rfc6838.media_type.tree
    rfc6838.media_type.subtype rfc6838.media_type.suffix].
  fold T TR ST SF. unfold lit. cbn [list_ascii_of_string app].
  unfold rfc6838.media_type.parser. fold (before_parameters (T ++ "/" :: TR ++ ST ++ SF)).
  rewrite before_parameters_fixed.
  2:{ intros I. apply in_app_or in I as [I|[I|I]].
      - now apply is_restricted_name_absent in Ra as (_ & Ra).
      - discriminate I.
      - assert (R : rfc6838.is_restricted_name (TR ++ ST ++ SF) = true)
          by now rewrite !is_restricted_name_app, Rt, Rc, Rs.
        now apply is_restricted_name_absent in R as (_ & R). }
  rewrite parser_type_first_slash by now apply is_restricted_name_absent in Ra.
  cbn [bind].
  assert (P2 : rfc6838.media_type.parser_tree (TR ++ ST ++ SF) = Ok (TR, ST ++ SF)).
  { destruct Fb as [E|(label & E & Nl & M)]; rewrite E.
    - simpl. apply parser_tree_no_dot.
      + destruct ST; [congruence|discriminate].
      + intros I. apply in_app_or in I as [I|I]; [|auto].
        apply C1; [now rewrite E|exact I].
    - rewrite <- app_assoc. simpl. apply parser_tree_first_dot; [exact Nl|].
      now apply is_modified_restricted_name_absent in M. }
  rewrite P2. cbn [bind].
  assert (P3 : rfc6838.media_type.parser_subtype (ST ++ SF) = (ST, SF)).
  { unfold rfc6838.media_type.parser_subtype.
    destruct Fs as [[N ->]|(x & rest & _ & -> & M & _)].
    - rewrite app_nil_r, find_last_absent by auto.
      now rewrite firstn_all, skipn_all.
    - apply is_modified_restricted_name_absent in M as (_ & _ & M).
      rewrite find_last_app by exact M.
      now rewrite firstn_app_exact, skipn_app_exact. }
  rewrite P3.
  assert (P4 : rfc6838.media_type.parser_suffix SF = Ok sf).
  { unfold rfc6838.media_type.parser_suffix.
    destruct Fs as [[-> ->]|(x & rest & -> & E & _ & K)]; [reflexivity|].
    rewrite K, E. reflexivity. }
  rewrite P4. cbn [bind]. rewrite Ta. cbn [bind]. rewrite Tb. cbn [bind].
  rewrite Tc. reflexivity.
Qed.

(** X12.  For a media type built from constructed components, parsing its
    canonical string gives the media type back exactly when it has the
    shape [canonical]; otherwise the parser cuts the string elsewhere: the
    canonical string does not tell ["x."] + ["y"] from the standard tree
    with ["x.y"]. *)
Theorem reparse_built_value (m : rfc6838.media_type.t) :
  constructed m ->
  (rfc6838.media_type.ctor (rfc6838.media_type.string m) = Ok m <-> canonical m).
Proof.
  intros H. unfold rfc6838.media_type.ctor. split.
  - apply parser_canonical.
  - now apply constructed_reparses.
Qed.

Lemma reparse_built_value_witness :
  constructed
    (rfc6838.media_type.mk (rfc6838.type.mk (lit "a")) (rfc6838.tree.mk [])
       (rfc6838.subtype.mk (lit "x.y")) None)
  /\ ~ canonical
        (rfc6838.media_type.mk (rfc6838.type.mk (lit "a")) (rfc6838.tree.mk [])
           (rfc6838.subtype.mk (lit "x.y")) None)
  /\ rfc6838.media_type.ctor
       (rfc6838.media_type.string
          (rfc6838.media_type.mk (rfc6838.type.mk (lit "a")) (rfc6838.tree.mk [])
             (rfc6838.subtype.mk (lit "x.y")) None))
     = Ok (rfc6838.media_type.mk (rfc6838.type.mk (lit "a"))
             (rfc6838.tree.mk (lit "x.")) (rfc6838.subtype.mk (lit "y")) None).
Proof.
  assert (C : constructed
                (rfc6838.media_type.mk (rfc6838.type.mk (lit "a"))
                   (rfc6838.tree.mk []) (rfc6838.subtype.mk (lit "x.y")) None)).
  { split; [now exists (lit "a")|]. split; [now exists []|].
    split; [now exists (lit "x.y")|exact I]. }
  split; [exact C|]. split; [|reflexivity].
  intros K. apply (reparse_built_value _ C) in K. discriminate K.
Defined.

(** X13.  Removing the suffix of a parsed media type and parsing the canonical
    string of the result gives that result back exactly when the subtype
    holds no ['+']. *)
Theorem without_suffix_reparses (s : str) (m : rfc6838.media_type.t) :
  rfc6838.media_type.ctor s = Ok m ->
  (rfc6838.media_type.ctor
     (rfc6838.media_type.string (rfc6838.media_type.without_suffix m))
   = Ok (rfc6838.media_type.without_suffix m)
   <-> ~ In "+" (rfc6838.subtype.string (rfc6838.media_type.subtype m))).
Proof.
  unfold rfc6838.media_type.ctor. intros H.
  pose proof (parser_constructed s m H) as (Ca & Cb & Cc & _).
  pose proof (parser_canonical s m H) as (K1 & _).
  assert (C : constructed (rfc6838.media_type.without_suffix m)).
  { repeat split; assumption. }
  split.
  - intros R. apply parser_canonical in R as (_ & R). now apply R.
  - intros N. apply constructed_reparses; [exact C|]. split; [exact K1|].
    intros _. exact N.
Qed.

Lemma without_suffix_reparses_witness :
  exists m,
    rfc6838.media_type.ctor (lit "application/x+y+json") = Ok m
    /\ In "+" (rfc6838.subtype.string (rfc6838.media_type.subtype m))
    /\ rfc6838.media_type.ctor
         (rfc6838.media_type.string (rfc6838.media_type.without_suffix m))
       <> Ok (rfc6838.media_type.without_suffix m).
Proof.
  eexists. split; [reflexivity|]. split; [simpl; right; now left|].
  intros R.
  apply (proj1 (without_suffix_reparses (lit "application/x+y+json") _ eq_refl)) in R.
  apply R. simpl. right. now left.
Defined.

(** ** The nested encoding *)

Lemma to_option_some {A : Type} (r : result A) (a : A) :
  to_option r = Some a <-> r = Ok a.
Proof. destruct r; simpl; split; congruence. Qed.

Lemma part_000_parsed (s : str) (m : part_000.t) :
  part_000.ctor s = Ok m <->
  exists m0, rfc6838.media_type.ctor s = Ok m0 /\ m = nested m0.
Proof.
  rewrite <- to_option_some, part_000_refines.
  destruct (rfc6838.media_type.ctor s) as [m0|w]; simpl; split.
  - intros H. exists m0. split; congruence.
  - intros (m1 & H & ->). congruence.
  - discriminate.
  - intros (m1 & H & _). discriminate H.
Qed.

(** X14.  The nested encoding has the same round trip and the same blindness to
    case: the canonical string of a parsed value is the lowercase form of
    what precedes the first [';'], parsing that string yields the value
    again, and every case variant of the input yields the same value. *)
Theorem nested_encoding_round_trip (s : str) (m : part_000.t) :
  part_000.ctor s = Ok m ->
  part_000.string m = lowercase (before_parameters s)
  /\ part_000.ctor (part_000.string m) = Ok m
  /\ (forall s', case_variant s s' -> part_000.ctor s' = Ok m).
Proof.
  intros H. apply part_000_parsed in H as (m0 & H & ->).
  rewrite nested_string. unfold rfc6838.media_type.ctor in H.
  pose proof (parser_string s m0 H) as S. split; [exact S|]. split.
  - apply part_000_parsed. exists m0. split; [|reflexivity].
    unfold rfc6838.media_type.ctor.
    now rewrite S, parser_lowercase, parser_before_parameters.
  - intros s' V. apply case_variant_lowercase in V.
    apply part_000_parsed. exists m0. split; [|reflexivity].
    unfold rfc6838.media_type.ctor.
    now rewrite <- parser_lowercase, V, parser_lowercase.
Qed.

Lemma nested_encoding_round_trip_witness :
  exists m,
    part_000.ctor (lit "Application/VND.Api+JSON;v=1") = Ok m
    /\ part_000.string m = lit "application/vnd.api+json"
    /\ part_000.ctor (part_000.string m) = Ok m.
Proof.
  eexists. split; [reflexivity|].
  destruct (nested_encoding_round_trip (lit "Application/VND.Api+JSON;v=1") _ eq_refl)
    as (S & R & _).
  split; [exact S | exact R].
Defined.

(** ** Parameter values *)

(** X15.  The constructor keeps its input as it is, case included.  The logical
    value, which [value()] and [value_view()] both return, is not empty,
    holds no quote and has at most 127 characters; for the quoted form the
    stored string is the logical value between two quotes. *)
Theorem parameter_value_logical_value (s : str) (v : rfc6838.parameter_value.t) :
  rfc6838.parameter_value.ctor s = Ok v ->
  rfc6838.parameter_value.string v = s
  /\ rfc6838.parameter_value.value v = rfc6838.parameter_value.value_view v
  /\ rfc6838.parameter_value.value_view v <> []
  /\ ~ In dquote (rfc6838.parameter_value.value_view v)
  /\ length (rfc6838.parameter_value.value_view v) <= 127
  /\ (front s = dquote ->
      s = dquote :: rfc6838.parameter_value.value_view v ++ [dquote])
  /\ (front s <> dquote -> rfc6838.parameter_value.value_view v = s).
Proof.
  intros H.
  assert (L : length s <= 127).
  { unfold rfc6838.parameter_value.ctor in H.
    cbn [rfc6838.parameter_value.backend] in H.
    destruct (empty s || (127 <? length s)) eqn:E; [discriminate|].
    apply orb_false_iff in E as [_ E]. now apply Nat.ltb_ge in E. }
  apply parameter_value_forms in H as (S & F).
  split; [exact S|]. split; [reflexivity|].
  destruct F as [(inner & E & N & Q & V)|(Q & N & R & V)]; rewrite V.
  - clear S. subst s. simpl in L. rewrite length_app in L. simpl in L.
    repeat split; auto; try lia. intros K. now simpl in K.
  - repeat split; auto; try congruence.
    intros I. apply is_restricted_name_forall in R. rewrite Forall_forall in R.
    apply R in I. discriminate I.
Qed.

Lemma parameter_value_logical_value_witness :
  rfc6838.parameter_value.value_view
    (rfc6838.parameter_value.mk (dquote :: lit "a b" ++ [dquote])) <> []
  /\ rfc6838.parameter_value.string
       (rfc6838.parameter_value.mk (dquote :: lit "a b" ++ [dquote]))
     = dquote :: lit "a b" ++ [dquote].
Proof.
  destruct (parameter_value_logical_value (dquote :: lit "a b" ++ [dquote]) _ eq_refl)
    as (S & _ & N & _).
  split; [exact N | exact S].
Defined.

(** X16.  Putting a bare parameter value of at most 125 characters between
    quotes gives a parameter value that [operator==] finds equal to it; a
    longer bare value has no quoted form, the constructor rejects it. *)
Theorem quoting_bare_parameter_value (s : str) (v : rfc6838.parameter_value.t) :
  rfc6838.parameter_value.ctor s = Ok v ->
  front s <> dquote ->
  (length s <= 125 ->
   exists q, rfc6838.parameter_value.ctor (dquote :: s ++ [dquote]) = Ok q
             /\ rfc6838.parameter_value.eqb v q = true)
  /\ (125 < length s ->
      succeeds (rfc6838.parameter_value.ctor (dquote :: s ++ [dquote])) = false).
Proof.
  intros H Q. apply parameter_value_forms in H as (_ & F).
  destruct F as [(inner & E & _)|(_ & N & R & V)].
  { subst s. now simpl in Q. }
  assert (D : contains s dquote = false).
  { unfold contains. apply not_true_is_false. intros I.
    apply existsb_exists in I as (c & I & E). apply Ascii.eqb_eq in E. subst c.
    apply is_restricted_name_forall in R. rewrite Forall_forall in R.
    apply R in I. discriminate I. }
  assert (Ls : length (dquote :: s ++ [dquote]) = length s + 2).
  { simpl. rewrite length_app. simpl. lia. }
  assert (B : back (dquote :: s ++ [dquote]) = dquote).
  { change (dquote :: s ++ [dquote]) with ((dquote :: s) ++ [dquote]).
    apply back_snoc. }
  unfold rfc6838.parameter_value.ctor, rfc6838.parameter_value.inner_string.
  cbn [rfc6838.parameter_value.backend]. rewrite B, Ls.
  cbn [empty front tl orb]. rewrite Ascii.eqb_refl, removelast_snoc, D.
  cbn [negb orb].
  destruct (Nat.eqb_spec (length s + 2) 1) as [K|_]; [lia|].
  destruct (Nat.eqb_spec (length s + 2) 2) as [K|_].
  { destruct s; [congruence|simpl in K; lia]. }
  cbn [orb]. split; intros L.
  - destruct (Nat.ltb_spec 127 (length s + 2)) as [K|_]; [lia|].
    eexists. split; [reflexivity|].
    unfold rfc6838.parameter_value.eqb. rewrite V.
    unfold rfc6838.parameter_value.value_view, rfc6838.parameter_value.inner_string.
    cbn [rfc6838.parameter_value.backend front tl].
    rewrite Ascii.eqb_refl, removelast_snoc. apply str_eqb_refl.
  - destruct (Nat.ltb_spec 127 (length s + 2)) as [_|K]; [reflexivity|lia].
Qed.

Lemma quoting_bare_parameter_value_witness :
  exists q, rfc6838.parameter_value.ctor (dquote :: lit "utf-8" ++ [dquote]) = Ok q
            /\ rfc6838.parameter_value.eqb
                 (rfc6838.parameter_value.mk (lit "utf-8")) q = true.
Proof.
  refine (proj1 (quoting_bare_parameter_value (lit "utf-8") _ eq_refl _) _).
  - discriminate.
  - simpl. repeat constructor.
Defined.

(** ** The errors of the parser *)

Lemma type_ctor_throws (s : str) (w : string) :
  rfc6838.type.ctor s = Throw w -> In w parser_messages.
Proof.
  unfold rfc6838.type.ctor. intros H.
  repeat match type of H with
         | context [if ?b then _ else _] => destruct b
         end; try discriminate H; injection H as <-; in_messages.
Qed.

Lemma subtype_ctor_throws (s : str) (w : string) :
  rfc6838.subtype.ctor s = Throw w -> In w parser_messages.
Proof.
  unfold rfc6838.subtype.ctor. intros H.
  repeat match type of H with
         | context [if ?b then _ else _] => destruct b
         end; try discriminate H; injection H as <-; in_messages.
Qed.

(** The tree constructor never complains about the last character of a
    candidate that ends with ['.']. *)
Lemma tree_ctor_throws (label : str) (w : string) :
  rfc6838.tree.ctor (label ++ ["."]) = Throw w -> In w parser_messages.
Proof.
  unfold rfc6838.tree.ctor. rewrite back_snoc. cbn [Ascii.eqb Bool.eqb negb].
  intros H.
  repeat match type of H with
         | context [if ?b then _ else _] => destruct b
         end; try discriminate H; injection H as <-; in_messages.
Qed.

(** The suffix constructor never complains about the first character of a
    candidate that starts with ['+']. *)
Lemma suffix_ctor_throws (tail : str) (w : string) :
  rfc6838.suffix.ctor ("+" :: tail) = Throw w -> In w parser_messages.
Proof.
  unfold rfc6838.suffix.ctor. cbn [front Ascii.eqb Bool.eqb negb].
  intros H.
  repeat match type of H with
         | context [if ?b then _ else _] => destruct b
         end; try discriminate H; injection H as <-; in_messages.
Qed.

Lemma firstn_through_find (c : ascii) (s : str) :
  find c s < length s -> firstn (S (find c s)) s = firstn (find c s) s ++ [c].
Proof.
  intros L. pose proof (find_split c s L) as E.
  set (a := firstn (find c s) s) in *. set (b := skipn (S (find c s)) s) in *.
  assert (K : length a = find c s).
  { subst a. rewrite length_firstn. lia. }
  rewrite <- K. rewrite E at 1.
  replace (a ++ c :: b) with ((a ++ [c]) ++ b) by (rewrite <- app_assoc; reflexivity).
  replace (S (length a)) with (length (a ++ [c])) by (rewrite length_app; simpl; lia).
  apply firstn_app_exact.
Qed.

Lemma parser_tree_candidate (input tree_ rest : str) :
  rfc6838.media_type.parser_tree input = Ok (tree_, rest) ->
  tree_ = [] \/ exists label, tree_ = label ++ ["."].
Proof.
  unfold rfc6838.media_type.parser_tree.
  destruct (find "." input =? 0); [discriminate|].
  destruct (Nat.eqb_spec (find "." input) (length input)) as [E|E]; intros H.
  - left. congruence.
  - right. exists (firstn (find "." input) input).
    assert (tree_ = firstn (S (find "." input)) input) as -> by congruence.
    apply firstn_through_find. pose proof (find_le "." input). lia.
Qed.

Lemma parser_throws (s : str) (w : string) :
  rfc6838.media_type.parser s = Throw w -> In w parser_messages.
Proof.
  unfold rfc6838.media_type.parser.
  destruct (rfc6838.media_type.parser_type _) as [[type_ r1]|w1] eqn:E1; cbn [bind].
  2:{ unfold rfc6838.media_type.parser_type in E1.
      destruct (_ =? _) in E1; [|discriminate E1].
      intros H. assert (w = w1) as -> by congruence.
      injection E1 as <-. in_messages. }
  destruct (rfc6838.media_type.parser_tree r1) as [[tree_ r2]|w2] eqn:E2; cbn [bind].
  2:{ unfold rfc6838.media_type.parser_tree in E2.
      destruct (_ =? 0) in E2.
      - intros H. assert (w = w2) as -> by congruence.
        injection E2 as <-. in_messages.
      - destruct (_ =? _) in E2; discriminate E2. }
  destruct (parser_subtype_last_plus r2) as (subtype_ & r3 & E3 & _ & C).
  rewrite E3.
  destruct (rfc6838.media_type.parser_suffix r3) as [o|w4] eqn:E4; cbn [bind].
  2:{ intros H. assert (w = w4) as -> by congruence.
      unfold rfc6838.media_type.parser_suffix in E4.
      destruct C as [(_ & _ & ->)|(tail & -> & _)]; [discriminate E4|].
      cbn [empty] in E4.
      destruct (rfc6838.suffix.ctor ("+" :: tail)) as [x|w5] eqn:E5;
        [discriminate E4|].
      cbn [bind] in E4. injection E4 as <-. exact (suffix_ctor_throws tail w5 E5). }
  destruct (rfc6838.type.ctor type_) as [a|w5] eqn:E5; cbn [bind].
  2:{ intros H. assert (w = w5) as -> by congruence.
      exact (type_ctor_throws type_ w5 E5). }
  destruct (rfc6838.tree.ctor tree_) as [b|w6] eqn:E6; cbn [bind].
  2:{ intros H. assert (w = w6) as -> by congruence.
      apply parser_tree_candidate in E2 as [->|(label & ->)]; [discriminate E6|].
      exact (tree_ctor_throws label w6 E6). }
  destruct (rfc6838.subtype.ctor subtype_) as [c|w7] eqn:E7; cbn [bind].
  2:{ intros H. assert (w = w7) as -> by congruence.
      exact (subtype_ctor_throws subtype_ w7 E7). }
  discriminate.
Qed.

Lemma part_000_parser_throws (s : str) (w : string) :
  part_000.parser s = Throw w -> In w parser_messages.
Proof.
  unfold part_000.parser. rewrite parser_type_000.
  destruct (rfc6838.media_type.parser_type _) as [[type_ r1]|w1] eqn:E1; cbn [bind].
  2:{ unfold rfc6838.media_type.parser_type in E1.
      destruct (_ =? _) in E1; [|discriminate E1].
      intros H. assert (w = w1) as -> by congruence.
      injection E1 as <-. in_messages. }
  rewrite media_top_type_ctor.
  destruct (rfc6838.type.ctor type_) as [a|w5] eqn:E5; cbn [bind map_result].
  2:{ intros H. assert (w = w5) as -> by congruence.
      exact (type_ctor_throws type_ w5 E5). }
  rewrite parser_tree_000.
  destruct (rfc6838.media_type.parser_tree r1) as [[tree_ r2]|w2] eqn:E2; cbn [bind].
  2:{ unfold rfc6838.media_type.parser_tree in E2.
      destruct (_ =? 0) in E2.
      - intros H. assert (w = w2) as -> by congruence.
        injection E2 as <-. in_messages.
      - destruct (_ =? _) in E2; discriminate E2. }
  rewrite media_tree_ctor.
  destruct (rfc6838.tree.ctor tree_) as [b|w6] eqn:E6; cbn [bind map_result].
  2:{ intros H. assert (w = w6) as -> by congruence.
      apply parser_tree_candidate in E2 as [->|(label & ->)]; [discriminate E6|].
      exact (tree_ctor_throws label w6 E6). }
  rewrite parser_subtype_000.
  destruct (parser_subtype_last_plus r2) as (subtype_ & r3 & E3 & _ & C).
  rewrite E3, media_subtype_ctor.
  destruct (rfc6838.subtype.ctor subtype_) as [c|w7] eqn:E7; cbn [bind map_result].
  2:{ intros H. assert (w = w7) as -> by congruence.
      exact (subtype_ctor_throws subtype_ w7 E7). }
  rewrite parser_suffix_000.
  destruct (rfc6838.media_type.parser_suffix r3) as [o|w4] eqn:E4;
    cbn [bind map_result]; [discriminate|].
  intros H. assert (w = w4) as -> by congruence.
  unfold rfc6838.media_type.parser_suffix in E4.
  destruct C as [(_ & _ & ->)|(tail & -> & _)]; [discriminate E4|].
  cbn [empty] in E4.
  destruct (rfc6838.suffix.ctor ("+" :: tail)) as [x|w8] eqn:E8;
    [discriminate E4|].
  cbn [bind] in E4. injection E4 as <-. exact (suffix_ctor_throws tail w8 E8).
Qed.

(** X17.  Parsing a whole media type fails, in either encoding, with one of
    fourteen messages.  The tree error on a last character other than ['.']
    and the suffix error on a first character other than ['+'] are not among
    them: the parser cuts the tree behind a ['.'] and the suffix at a ['+'],
    so only the component constructors called directly can raise them. *)
Theorem parser_error_messages (s : str) (w : string) :
  (rfc6838.media_type.ctor s = Throw w -> In w parser_messages)
  /\ (part_000.ctor s = Throw w -> In w parser_messages)
  /\ ~ In "media type: tree: last character required to be '.'"%string
         parser_messages
  /\ ~ In "media type: suffix: first character required to be '+'"%string
         parser_messages
  /\ rfc6838.tree.ctor (lit "vnd")
     = Throw "media type: tree: last character required to be '.'"
  /\ rfc6838.suffix.ctor (lit "json")
     = Throw "media type: suffix: first character required to be '+'".
Proof.
  split; [apply parser_throws|]. split; [apply part_000_parser_throws|].
  split; [|split; [|split; reflexivity]].
  - cbv [In parser_messages]. intros H.
    repeat (destruct H as [H|H]; [discriminate H|]). exact H.
  - cbv [In parser_messages]. intros H.
    repeat (destruct H as [H|H]; [discriminate H|]). exact H.
Qed.

Lemma parser_error_messages_witness :
  rfc6838.media_type.ctor (lit "text/plain+")
    = Throw "media type: suffix: lenght required to be [2..127] characters"
  /\ In "media type: suffix: lenght required to be [2..127] characters"%string
       parser_messages.
Proof.
  split; [reflexivity|].
  exact (proj1 (parser_error_messages (lit "text/plain+") _) eq_refl).
Defined.

(** ** The tree step on every view *)



(** ** The two encodings, messages included *)














(** The other exception is met as well: on ["/.a"] [rfc6838] reports the
    missing tree and the nested encoding the empty type. *)
Lemma missing_tree_exception_met :
  rfc6838.media_type.ctor (lit "/.a") = Throw missing_tree
  /\ part_000.ctor (lit "/.a")
     = Throw "media type: top-level type: lenght required to be [1..127] characters".
Proof. split; reflexivity. Qed.
